(** * sql_opt_v2: execution-plan analysis and index suggestion

    A shallow embedding of [sql_opt_v2.py].  The file follows the layout of
    the Python module: the text helpers and the part of the [re] module that
    the three patterns of [extract_columns_from_where] need, then
    [extract_columns_from_where] and [analyze_plan_and_suggest], then the
    reporting arithmetic of [sql_analysis_demo] and the transaction
    discipline of [automated_task].

    Strings are lists of characters.  A character is one of the first 256
    code points (Latin-1), a value of [ascii]; the classes [\w] and [\s]
    and the case mappings below are Python's on these code points.  An
    upper-cased string can leave this range and is a list of code
    points. *)

From Stdlib Require Import Ascii String List Bool Arith Lia ZArith.
From Stdlib Require Import DecimalString Floats Permutation.
Import ListNotations.

(** ** Characters and strings *)

Definition str := list ascii.

Definition lit (s : string) : str := list_ascii_of_string s.

Definition code (c : ascii) : nat := nat_of_ascii c.

Definition between (lo hi n : nat) : bool := (lo <=? n) && (n <=? hi).

Definition is_upper (c : ascii) : bool := between 65 90 (code c).
Definition is_lower (c : ascii) : bool := between 97 122 (code c).
Definition is_digit (c : ascii) : bool := between 48 57 (code c).
Definition is_underscore (c : ascii) : bool := code c =? 95.

(** [str.isalnum] beyond ASCII: the letters and numbers of Latin-1, which
    are the ordinal indicators 0xaa and 0xba, the superscripts 0xb2, 0xb3
    and 0xb9, the micro sign 0xb5, the fractions 0xbc..0xbe and the letters
    0xc0..0xff without the signs 0xd7 and 0xf7. *)
Definition is_latin_alnum (c : ascii) : bool :=
  let n := code c in
  (n =? 170) || (n =? 178) || (n =? 179) || (n =? 181) || (n =? 185)
  || (n =? 186) || between 188 190 n || between 192 214 n
  || between 216 246 n || between 248 255 n.

(** [\w] on a [str] pattern: alphanumerics and the underscore. *)
Definition is_word (c : ascii) : bool :=
  is_upper c || is_lower c || is_digit c || is_underscore c
  || is_latin_alnum c.

(** [\s] and [str.isspace]: tab, newline, vertical tab, form feed, carriage
    return, the four separators 0x1c..0x1f, the space, the next line
    control 0x85 and the no-break space 0xa0. *)
Definition is_space (c : ascii) : bool :=
  between 9 13 (code c) || between 28 32 (code c)
  || (code c =? 133) || (code c =? 160).

Definition is_newline (c : ascii) : bool := code c =? 10.

(** The lower case of a character: the capitals A..Z and 0xc0..0xde
    without the sign 0xd7 have one, 32 code points on. *)
Definition lower (c : ascii) : ascii :=
  if is_upper c || between 192 214 (code c) || between 216 222 (code c)
  then ascii_of_nat (code c + 32)
  else c.

(** Strings of code points of any size *)
Definition wstr := list N.

Definition wcode (c : ascii) : N := N.of_nat (code c).

Definition wide (s : str) : wstr := map wcode s.

(** The upper case of a character, as [str.upper] maps it: the small
    letters a..z and 0xe0..0xfe without the sign 0xf7 go 32 code points
    back, the sharp s 0xdf becomes SS, and the micro sign 0xb5 and the y
    with diaeresis 0xff go to U+039C and U+0178. *)
Definition upper (c : ascii) : wstr :=
  let n := code c in
  if is_lower c then [N.of_nat (n - 32)]
  else if n =? 181 then [924%N]
  else if n =? 223 then [83%N; 83%N]
  else if between 224 246 n || between 248 254 n then [N.of_nat (n - 32)]
  else if n =? 255 then [376%N]
  else [N.of_nat n].

(** [str.upper] *)
Definition str_upper (s : str) : wstr := flat_map upper s.

Definition wstr_eqb (a b : wstr) : bool :=
  if list_eq_dec N.eq_dec a b then true else false.

Definition str_eqb (a b : str) : bool :=
  if list_eq_dec ascii_dec a b then true else false.

(** [str.strip()] with no argument *)
Fixpoint lstrip (s : str) : str :=
  match s with
  | c :: s' => if is_space c then lstrip s' else s
  | [] => []
  end.

Definition rstrip (s : str) : str := rev (lstrip (rev s)).

Definition strip (s : str) : str := rstrip (lstrip s).

(** [sep.join(items)] *)
Fixpoint join (sep : str) (items : list str) : str :=
  match items with
  | [] => []
  | [x] => x
  | x :: rest => x ++ sep ++ join sep rest
  end.

(** ** The fragment of [re] used by the module

    The three patterns are built from single characters, the classes [.],
    [\s] and bracket sets, [\b], concatenation, alternation, a greedy star
    over one character class and capturing groups.  The matcher is the
    backtracking one of [sre]: alternatives are tried in order, a star
    takes as much as it can and gives back one character at a time. *)

Inductive atom : Type :=
| ALit (c : ascii)              (* a literal character *)
| ADot                          (* .   (no DOTALL) *)
| ASpace                        (* \s *)
| ASet (p : ascii -> bool).     (* [...] *)

Inductive regex : Type :=
| Eps                           (* the empty pattern *)
| Atom (a : atom)
| WordB                         (* \b *)
| Cat (r1 r2 : regex)
| Alt (r1 r2 : regex)
| Star (a : atom)               (* a*  greedy *)
| Group (n : nat) (r : regex).  (* ( ... ) numbered n *)

Definition all_chars : list ascii := map ascii_of_nat (seq 0 256).

(** One character against an atom; [ic] is [re.IGNORECASE], under which a
    literal and a set take a character whose lower case is that of the
    literal or of a member of the set. *)
Definition atom_ok (ic : bool) (a : atom) (c : ascii) : bool :=
  match a with
  | ALit x => if ic then Ascii.eqb (lower c) (lower x) else Ascii.eqb c x
  | ADot => negb (is_newline c)
  | ASpace => is_space c
  | ASet p =>
      if ic then
        existsb (fun x => p x && Ascii.eqb (lower x) (lower c)) all_chars
      else p c
  end.

Definition word_before (prev : option ascii) : bool :=
  match prev with Some c => is_word c | None => false end.

Definition word_after (s : str) : bool :=
  match s with c :: _ => is_word c | [] => false end.

(** [\b]: exactly one of the two neighbours is a word character; outside
    the string counts as a non-word character. *)
Definition at_boundary (prev : option ascii) (s : str) : bool :=
  xorb (word_before prev) (word_after s).

Definition captures := list (nat * str).

Fixpoint star_run {A : Type} (p : ascii -> bool) (prev : option ascii)
    (s : str) (k : option ascii -> str -> option A) : option A :=
  match s with
  | c :: s' =>
      if p c then
        match star_run p (Some c) s' k with
        | Some x => Some x
        | None => k prev s
        end
      else k prev s
  | [] => k prev s
  end.

(** [run ic r prev s g k]: match [r] at the position whose preceding
    character is [prev] and whose remaining text is [s], then continue
    with [k]; [None] is failure, which makes the caller backtrack. *)
Fixpoint run {A : Type} (ic : bool) (r : regex) (prev : option ascii)
    (s : str) (g : captures)
    (k : option ascii -> str -> captures -> option A) : option A :=
  match r with
  | Eps => k prev s g
  | Atom a =>
      match s with
      | c :: s' => if atom_ok ic a c then k (Some c) s' g else None
      | [] => None
      end
  | WordB => if at_boundary prev s then k prev s g else None
  | Cat r1 r2 => run ic r1 prev s g (fun p' s' g' => run ic r2 p' s' g' k)
  | Alt r1 r2 =>
      match run ic r1 prev s g k with
      | Some x => Some x
      | None => run ic r2 prev s g k
      end
  | Star a => star_run (atom_ok ic a) prev s (fun p' s' => k p' s' g)
  | Group n r1 =>
      run ic r1 prev s g
        (fun p' s' g' =>
           k p' s' ((n, firstn (length s - length s') s) :: g'))
  end.

(** A match object: the text left after the match and the groups. *)
Record rmatch : Type := { m_rest : str; m_groups : captures }.

Definition match_here (ic : bool) (r : regex) (prev : option ascii)
    (s : str) : option rmatch :=
  run ic r prev s [] (fun _ s' g => Some {| m_rest := s'; m_groups := g |}).

(** [re.match(pattern, s)] *)
Definition re_match (ic : bool) (r : regex) (s : str) : option rmatch :=
  match_here ic r None s.

Fixpoint search_from (ic : bool) (r : regex) (prev : option ascii)
    (s : str) : option rmatch :=
  match match_here ic r prev s with
  | Some m => Some m
  | None =>
      match s with
      | c :: s' => search_from ic r (Some c) s'
      | [] => None
      end
  end.

(** [re.search(pattern, s)]: the leftmost position with a match. *)
Definition re_search (ic : bool) (r : regex) (s : str) : option rmatch :=
  search_from ic r None s.

(** Python values that occur in a plan row or in a match group. *)
Inductive pyval : Type :=
| PNone
| PStr (s : str)
| PInt (z : Z).

(** [m.group(n)]: the text of group [n], or [None] when the group took no
    part in the match. *)
Fixpoint lookup_group (n : nat) (g : captures) : pyval :=
  match g with
  | (i, t) :: g' => if Nat.eqb i n then PStr t else lookup_group n g'
  | [] => PNone
  end.

Definition group (m : rmatch) (n : nat) : pyval := lookup_group n (m_groups m).

(** [re.split(pattern, s)] for a pattern without groups, whose matches
    take at least one character (as the one of this module does).  After a
    match of [n > 0] characters the scan resumes behind it, which [skip]
    counts down; [acc] is the piece being collected, reversed. *)
Fixpoint split_from (ic : bool) (r : regex) (prev : option ascii) (s : str)
    (skip : nat) (acc : str) : list str :=
  match skip with
  | S n =>
      match s with
      | c :: s' => split_from ic r (Some c) s' n acc
      | [] => [rev acc]
      end
  | O =>
      match s with
      | [] => [rev acc]
      | c :: s' =>
          match match_here ic r prev s with
          | Some m =>
              match length s - length (m_rest m) with
              | S n => rev acc :: split_from ic r (Some c) s' n []
              | O => split_from ic r (Some c) s' 0 (c :: acc)
              end
          | None => split_from ic r (Some c) s' 0 (c :: acc)
          end
      end
  end.

Definition re_split (ic : bool) (r : regex) (s : str) : list str :=
  split_from ic r None s 0 [].

(** A literal word as a pattern. *)
Fixpoint word (w : str) : regex :=
  match w with
  | [] => Eps
  | c :: w' => Cat (Atom (ALit c)) (word w')
  end.

(** ** Exceptions *)

Inductive exn : Type :=
  TypeError | AttributeError | ValueError | ZeroDivisionError.

Inductive result (A : Type) : Type :=
| Ok (a : A)
| Raise (e : exn).

Arguments Ok {A} a.
Arguments Raise {A} e.

Definition bind {A B : Type} (m : result A) (f : A -> result B) : result B :=
  match m with
  | Ok a => f a
  | Raise e => Raise e
  end.

Notation "x <- m ;; f" := (bind m (fun x => f))
  (at level 61, m at next level, right associativity).

(** ** extract_columns_from_where *)

(** The pattern of [re.search]: \b WHERE \b and group 1 = [.*], under
    re.IGNORECASE *)
Definition where_re : regex :=
  Cat WordB (Cat (word (lit "WHERE")) (Cat WordB (Group 1 (Star ADot)))).

(** The pattern of [re.split]: \b AND \b | \b OR \b, under re.IGNORECASE *)
Definition and_or_re : regex :=
  Alt (Cat WordB (Cat (word (lit "AND")) WordB))
      (Cat WordB (Cat (word (lit "OR")) WordB)).

(** The sets [a-zA-Z_] and [a-zA-Z0-9_] *)
Definition ident_start (c : ascii) : bool :=
  is_lower c || is_upper c || is_underscore c.

Definition ident_char (c : ascii) : bool :=
  is_lower c || is_upper c || is_digit c || is_underscore c.

(** The alternatives = | > | < | >= | <= in the order of the pattern *)
Definition op_re : regex :=
  Alt (word (lit "="))
    (Alt (word (lit ">"))
      (Alt (word (lit "<"))
        (Alt (word (lit ">=")) (word (lit "<="))))).

(** The pattern of [re.match]: [\s*], group 1 = an identifier, [\s*],
    group 2 = an operator *)
Definition col_re : regex :=
  Cat (Star ASpace)
    (Cat (Group 1 (Cat (Atom (ASet ident_start)) (Star (ASet ident_char))))
      (Cat (Star ASpace) (Group 2 op_re))).

(** The body of the [for part in parts] loop. *)
Definition add_column (columns : list pyval) (part : str) : list pyval :=
  match re_match false col_re (strip part) with
  | Some m => columns ++ [group m 1]
  | None => columns
  end.

Definition extract_columns_from_where (query : str) : result (list pyval) :=
  match re_search true where_re query with
  | None => Ok []
  | Some where_clause =>
      match group where_clause 1 with
      | PStr conditions =>
          let parts := re_split true and_or_re conditions in
          Ok (fold_left add_column parts [])
      | _ => Raise TypeError     (* re.split of a value that is no string *)
      end
  end.

(** ** analyze_plan_and_suggest *)

(** The dictionary [suggestions]: keys in insertion order; assigning to a
    key that is present replaces its value where it stands. *)
Definition pyval_eqb (a b : pyval) : bool :=
  match a, b with
  | PNone, PNone => true
  | PStr x, PStr y => str_eqb x y
  | PInt x, PInt y => Z.eqb x y
  | _, _ => false
  end.

Definition dict := list (pyval * str).

Fixpoint dict_set (k : pyval) (v : str) (d : dict) : dict :=
  match d with
  | [] => [(k, v)]
  | (k', v') :: d' =>
      if pyval_eqb k' k then (k', v) :: d' else (k', v') :: dict_set k v d'
  end.

Fixpoint dict_get (k : pyval) (d : dict) : option str :=
  match d with
  | [] => None
  | (k', v') :: d' => if pyval_eqb k' k then Some v' else dict_get k d'
  end.

(** [str(v)], as an f-string field renders a value. *)
Definition py_str (v : pyval) : str :=
  match v with
  | PNone => lit "None"
  | PStr s => s
  | PInt z => lit (NilEmpty.string_of_int (Z.to_int z))
  end.

(** [v.upper()]: only strings have the method. *)
Definition py_upper (v : pyval) : result wstr :=
  match v with
  | PStr s => Ok (str_upper s)
  | _ => Raise AttributeError
  end.

Definition is_none (v : pyval) : bool :=
  match v with PNone => true | _ => false end.

(** [sep.join(items)]: every item has to be a string. *)
Fixpoint strings_of (items : list pyval) : result (list str) :=
  match items with
  | [] => Ok []
  | PStr s :: rest => l <- strings_of rest ;; Ok (s :: l)
  | _ :: _ => Raise TypeError
  end.

Definition py_join (sep : str) (items : list pyval) : result str :=
  l <- strings_of items ;; Ok (join sep l).

Definition row := list pyval.

(** The two f-strings. *)
Definition index_message (table : pyval) (columns : str) : str :=
  lit "Consider adding an index on table '" ++ py_str table
    ++ lit "' for columns: " ++ columns ++ lit ".".

Definition review_message (table : pyval) : str :=
  lit "Review the WHERE clause for table '" ++ py_str table
    ++ lit "' and consider adding appropriate indexes.".

Definition make_suggestion (candidate_columns : list pyval) (table : pyval)
    : result str :=
  match candidate_columns with
  | _ :: _ =>
      cols <- py_join (lit ", ") candidate_columns ;;
      Ok (index_message table cols)
  | [] => Ok (review_message table)
  end.

(** The body of the [for row in plan] loop. *)
Definition analyze_row (candidate_columns : list pyval) (suggestions : dict)
    (r : row) : result dict :=
  match r with
  | [id_val; select_type; table; type_val; possible_keys; key; key_len;
     ref; rows; extra] =>
      up <- py_upper type_val ;;
      if wstr_eqb up (wide (lit "ALL")) then
        if is_none possible_keys || is_none key then
          suggestion <- make_suggestion candidate_columns table ;;
          Ok (dict_set table suggestion suggestions)
        else Ok suggestions
      else Ok suggestions
  | _ => Raise ValueError           (* the tuple does not unpack *)
  end.

Fixpoint analyze_rows (candidate_columns : list pyval) (suggestions : dict)
    (plan : list row) : result dict :=
  match plan with
  | [] => Ok suggestions
  | r :: plan' =>
      suggestions' <- analyze_row candidate_columns suggestions r ;;
      analyze_rows candidate_columns suggestions' plan'
  end.

Definition analyze_plan_and_suggest (plan : list row) (query : str)
    : result dict :=
  candidate_columns <- extract_columns_from_where query ;;
  analyze_rows candidate_columns [] plan.


(** ** sql_analysis_demo: the improvement figure

    The two durations are differences of [time.time()], binary64 floats.
    The figure is either the float of the formula or the integer 0 of the
    [else] branch.  A float division by zero raises. *)

Inductive number : Type :=
| NInt (z : Z)
| NFloat (f : float).

(** [bool(x)] of a float: [x != 0.0] *)
Definition float_truthy (x : float) : bool := negb (PrimFloat.eqb x 0%float).

(** [a / b] on floats *)
Definition float_truediv (a b : float) : result float :=
  if PrimFloat.eqb b 0%float then Raise ZeroDivisionError
  else Ok (PrimFloat.div a b).

Definition improvement (original_time optimized_time : float)
    : result number :=
  if float_truthy original_time then
    q <- float_truediv (PrimFloat.sub original_time optimized_time)
           original_time ;;
    Ok (NFloat (PrimFloat.mul q 100%float))
  else Ok (NInt 0).

(** ** automated_task

    The connection and the cursor are outside the program: a [world] says
    how each of their calls ends during one run of the task.  A call
    returns or raises; [DbError] stands for [mysql.connector.Error] and its
    subclasses, [OtherError] for every other exception.  The calls of
    [print] are left out. *)

Inductive failure : Type := DbError | OtherError.

Inductive outcome (A : Type) : Type :=
| Returns (a : A)
| Raises (f : failure).

Arguments Returns {A} a.
Arguments Raises {A} f.

Inductive event : Type :=
| ECursor                 (* conn.cursor(buffered=True) *)
| EStartTransaction       (* conn.start_transaction() *)
| EExecute (q : string)   (* cursor.execute(q) *)
| EFetchOne               (* cursor.fetchone() *)
| ECommit                 (* conn.commit() *)
| ERollback               (* conn.rollback() *)
| EClose.                 (* cursor.close() *)

Record world : Type := {
  w_cursor : outcome unit;
  w_in_transaction : bool;
  w_start_transaction : outcome unit;
  w_execute_count : outcome unit;
  w_fetch_count : outcome (option (list pyval));
  w_execute_status : outcome unit;
  w_fetch_status : outcome (option (list pyval));
  w_commit : outcome unit;
  w_rollback : outcome unit;
  w_close : outcome unit
}.

(** The calls made so far, oldest first, and whether the local variable
    [cursor] has been assigned. *)
Record frame : Type := { trace : list event; cursor_bound : bool }.

Definition task (A : Type) : Type := frame -> outcome A * frame.

Definition ret {A : Type} (a : A) : task A := fun f => (Returns a, f).

Definition raise {A : Type} (e : failure) : task A := fun f => (Raises e, f).

Definition then_ {A B : Type} (m : task A) (k : A -> task B) : task B :=
  fun f =>
    match m f with
    | (Returns a, f') => k a f'
    | (Raises e, f') => (Raises e, f')
    end.

Notation "x <~ m ;; k" := (then_ m (fun x => k))
  (at level 61, m at next level, right associativity).
Notation "m ;;; k" := (then_ m (fun _ => k))
  (at level 61, right associativity).

Definition call {A : Type} (e : event) (o : outcome A) : task A :=
  fun f => (o, {| trace := trace f ++ [e]; cursor_bound := cursor_bound f |}).

Definition assign_cursor : task unit :=
  fun f => (Returns tt, {| trace := trace f; cursor_bound := true |}).

(** [v[i]] on the result of [fetchone()]: [None] is not subscriptable and
    a short tuple has no such index. *)
Definition subscript (v : option (list pyval)) (i : nat) : task pyval :=
  match v with
  | None => raise OtherError
  | Some t =>
      match nth_error t i with
      | Some x => ret x
      | None => raise OtherError
      end
  end.

(** [bool(v)] of the result of [fetchone()] *)
Definition fetched_truthy (v : option (list pyval)) : bool :=
  match v with
  | Some (_ :: _) => true
  | _ => false
  end.

(** [try: body  except mysql.connector.Error: handler  finally: final] *)
Definition try_except_finally (body handler final : task unit) : task unit :=
  fun f0 =>
    let (o1, f1) := body f0 in
    let (o2, f2) :=
      match o1 with
      | Raises DbError => handler f1
      | _ => (o1, f1)
      end in
    let (o3, f3) := final f2 in
    match o3 with
    | Raises e => (Raises e, f3)
    | Returns _ => (o2, f3)
    end.

Definition count_query : string := "SELECT COUNT(*) FROM users;".
Definition status_query : string :=
  "SHOW STATUS LIKE 'Innodb_buffer_pool_bytes_data';".

Definition task_body (w : world) : task unit :=
  call ECursor (w_cursor w) ;;;
  assign_cursor ;;;
  (if negb (w_in_transaction w)
   then call EStartTransaction (w_start_transaction w)
   else ret tt) ;;;
  call (EExecute count_query) (w_execute_count w) ;;;
  r <~ call EFetchOne (w_fetch_count w) ;;
  subscript r 0 ;;;
  call (EExecute status_query) (w_execute_status w) ;;;
  buffer_status <~ call EFetchOne (w_fetch_status w) ;;
  (if fetched_truthy buffer_status
   then subscript buffer_status 1 ;;; ret tt
   else ret tt) ;;;
  call ECommit (w_commit w).

Definition task_handler (w : world) : task unit :=
  call ERollback (w_rollback w).

(** [cursor.close()] in the [finally] clause; with [cursor] unassigned the
    name lookup raises [UnboundLocalError]. *)
Definition task_final (w : world) : task unit :=
  fun f =>
    if cursor_bound f then call EClose (w_close w) f
    else raise OtherError f.

Definition automated_task (w : world) : outcome unit * frame :=
  try_except_finally (task_body w) (task_handler w) (task_final w)
    {| trace := []; cursor_bound := false |}.

(** The frame at the start of a run, the calls of a whole run, and how the
    [try] block ends *)
Definition start : frame := {| trace := []; cursor_bound := false |}.

Definition steps (w : world) : list event := trace (snd (automated_task w)).

Definition body_outcome (w : world) : outcome unit := fst (task_body w start).

Definition returns {A : Type} (o : outcome A) : bool :=
  match o with
  | Returns _ => true
  | Raises _ => false
  end.

(** [fetchone()[0]] and the guarded [buffer_status[1]] go through *)
Definition fetch_count_ok (o : outcome (option (list pyval))) : bool :=
  match o with
  | Returns (Some (_ :: _)) => true
  | _ => false
  end.

Definition fetch_status_ok (o : outcome (option (list pyval))) : bool :=
  match o with
  | Returns None => true
  | Returns (Some []) => true
  | Returns (Some (_ :: _ :: _)) => true
  | _ => false
  end.

(** Every step before the commit goes through. *)
Definition queries_ok (w : world) : bool :=
  returns (w_cursor w)
  && (w_in_transaction w || returns (w_start_transaction w))
  && returns (w_execute_count w)
  && fetch_count_ok (w_fetch_count w)
  && returns (w_execute_status w)
  && fetch_status_ok (w_fetch_status w).

Definition is_db_error {A : Type} (o : outcome A) : bool :=
  match o with
  | Raises DbError => true
  | _ => false
  end.

(** A run in which the connection gives no cursor *)
Definition cursor_failure_world : world :=
  {| w_cursor := Raises DbError;
     w_in_transaction := false;
     w_start_transaction := Returns tt;
     w_execute_count := Returns tt;
     w_fetch_count := Returns (Some [PInt 3]);
     w_execute_status := Returns tt;
     w_fetch_status := Returns None;
     w_commit := Returns tt;
     w_rollback := Returns tt;
     w_close := Returns tt |}.

(** A run in which the first query raises a database error *)
Definition failing_world : world :=
  {| w_cursor := Returns tt;
     w_in_transaction := false;
     w_start_transaction := Returns tt;
     w_execute_count := Raises DbError;
     w_fetch_count := Returns None;
     w_execute_status := Returns tt;
     w_fetch_status := Returns None;
     w_commit := Returns tt;
     w_rollback := Returns tt;
     w_close := Returns tt |}.

(** ** get_execution_plan, run_query and sql_analysis_demo

    The same view of the database as for the periodic task: a world says
    how each call of one run ends, and the run leaves the list of its
    calls, oldest first.  The two readings of [time.time()] are part of
    the world.  The calls of [print] are left out. *)

Inductive db_call : Type :=
| CCursor                 (* conn.cursor(buffered=True) *)
| CExecute (q : str)      (* cursor.execute(q) *)
| CFetchAll               (* cursor.fetchall() *)
| CCommit                 (* conn.commit() *)
| CClose                  (* cursor.close() *)
| CTime.                  (* time.time() *)

Definition io (A : Type) : Type := list db_call -> outcome A * list db_call.

Definition io_ret {A : Type} (a : A) : io A := fun t => (Returns a, t).

Definition io_raise {A : Type} (e : failure) : io A := fun t => (Raises e, t).

Definition io_then {A B : Type} (m : io A) (k : A -> io B) : io B :=
  fun t =>
    match m t with
    | (Returns a, t') => k a t'
    | (Raises e, t') => (Raises e, t')
    end.

Notation "x <== m ;; k" := (io_then m (fun x => k))
  (at level 61, m at next level, right associativity).
Notation "m >>> k" := (io_then m (fun _ => k))
  (at level 61, right associativity).

Definition io_call {A : Type} (c : db_call) (o : outcome A) : io A :=
  fun t => (o, t ++ [c]).

Record plan_world : Type := {
  pw_cursor : outcome unit;
  pw_execute : outcome unit;
  pw_fetchall : outcome (list row);
  pw_close : outcome unit
}.

Definition get_execution_plan (w : plan_world) (query : str)
    : io (list row) :=
  io_call CCursor (pw_cursor w) >>>
  let explain_query := lit "EXPLAIN " ++ query in
  io_call (CExecute explain_query) (pw_execute w) >>>
  plan <== io_call CFetchAll (pw_fetchall w) ;;
  io_call CClose (pw_close w) >>>
  io_ret plan.

(** [s.startswith(prefix)] *)
Fixpoint starts_with (prefix s : wstr) : bool :=
  match prefix, s with
  | [], _ => true
  | p :: prefix', c :: s' => N.eqb p c && starts_with prefix' s'
  | _ :: _, [] => false
  end.

(** The test [query.strip().upper().startswith("SELECT")] *)
Definition is_select (query : str) : bool :=
  starts_with (wide (lit "SELECT")) (str_upper (strip query)).

Record query_world : Type := {
  qw_cursor : outcome unit;
  qw_start : float;
  qw_execute : outcome unit;
  qw_fetchall : outcome (list row);
  qw_commit : outcome unit;
  qw_end : float;
  qw_close : outcome unit
}.

Definition run_query (w : query_world) (query : str) : io float :=
  io_call CCursor (qw_cursor w) >>>
  start <== io_call CTime (Returns (qw_start w)) ;;
  io_call (CExecute query) (qw_execute w) >>>
  (if is_select query
   then io_call CFetchAll (qw_fetchall w) >>> io_ret tt
   else io_call CCommit (qw_commit w)) >>>
  now <== io_call CTime (Returns (qw_end w)) ;;
  let elapsed := PrimFloat.sub now start in
  io_call CClose (qw_close w) >>>
  io_ret elapsed.

(** The step between the two readings of the clock goes through. *)
Definition finish_ok (w : query_world) (query : str) : bool :=
  if is_select query then returns (qw_fetchall w)
  else returns (qw_commit w).

(** An exception of the core, seen from the caller: it is no database
    error. *)
Definition lift_result {A : Type} (r : result A) : io A :=
  match r with
  | Ok a => io_ret a
  | Raise _ => io_raise OtherError
  end.

(** The query of the demo, the same string for the original and for the
    optimized one *)
Definition demo_query : str :=
  lit "SELECT [column_name] FROM [TABLE] FORCE INDEX (PRIMARY) WHERE [WHERE_OPTIONS];".

Definition sql_analysis_demo (w1 : plan_world) (w2 : query_world)
    (w3 : plan_world) (w4 : query_world) : io unit :=
  let original_query := demo_query in
  plan <== get_execution_plan w1 original_query ;;
  lift_result (analyze_plan_and_suggest plan original_query) >>>
  original_time <== run_query w2 original_query ;;
  let optimized_query := demo_query in
  get_execution_plan w3 optimized_query >>>
  optimized_time <== run_query w4 optimized_query ;;
  lift_result (improvement original_time optimized_time) >>>
  io_ret tt.

(** The calls of a run that starts with none made, and its outcome *)
Definition calls {A : Type} (m : io A) : list db_call := snd (m []).

Definition ends {A : Type} (m : io A) : outcome A := fst (m []).

(** ** Shapes of query text

    The vocabulary of the statements about the extractor: identifiers,
    operators, keywords as whole words, and a filter clause built from
    predicates and connectives. *)

Fixpoint take_while (p : ascii -> bool) (s : str) : str :=
  match s with
  | c :: s' => if p c then c :: take_while p s' else []
  | [] => []
  end.

Fixpoint drop_while (p : ascii -> bool) (s : str) : str :=
  match s with
  | c :: s' => if p c then drop_while p s' else s
  | [] => []
  end.

(** [str.lower] *)
Definition str_lower (s : str) : str := map lower s.

(** The letters a..z put into capitals, every other character kept *)
Definition ascii_upper (c : ascii) : ascii :=
  if is_lower c then ascii_of_nat (code c - 32) else c.

Definition str_ascii_upper (s : str) : str := map ascii_upper s.

Definition is_where (w : str) : bool := str_eqb (str_lower w) (lit "where").

Definition is_and_or (w : str) : bool :=
  str_eqb (str_lower w) (lit "and") || str_eqb (str_lower w) (lit "or").

(** No maximal run of word characters of [x] is a keyword [kw];
    [after_word] tells whether a word character stands before [x]. *)
Fixpoint no_word (kw : str -> bool) (after_word : bool) (x : str) : bool :=
  match x with
  | [] => true
  | c :: x' =>
      (after_word || negb (kw (take_while is_word x)))
      && no_word kw (is_word c) x'
  end.

(** The character before the position behind [x], when [prev] is the one
    before [x] *)
Fixpoint after (prev : option ascii) (x : str) : option ascii :=
  match x with
  | [] => prev
  | c :: x' => after (Some c) x'
  end.

Definition last_char (s : str) : option ascii := after None s.

(** The last character of [s], if there is one, is no word character. *)
Definition ends_nonword (s : str) : bool := negb (word_before (last_char s)).

Definition is_identifier (s : str) : bool :=
  match s with
  | c :: s' => ident_start c && forallb ident_char s'
  | [] => false
  end.

Definition operators : list str :=
  [lit "="; lit ">"; lit "<"; lit ">="; lit "<="].

Definition is_operator (o : str) : bool := existsb (str_eqb o) operators.

Definition not_newline (c : ascii) : bool := negb (is_newline c).

(** Spaces and tabs and the like, but no line break *)
Definition blank (s : str) : bool :=
  forallb (fun c => is_space c && not_newline c) s.

Definition one_line (s : str) : bool := forallb not_newline s.

(** A predicate [column OP value]: the white space before the column, the
    column, the white space before the operator, the operator, and the
    rest (the value with the white space around it). *)
Record predicate : Type := {
  p_lead : str; p_col : str; p_gap : str; p_op : str; p_rest : str
}.

Definition pred_text (p : predicate) : str :=
  p_lead p ++ p_col p ++ p_gap p ++ p_op p ++ p_rest p.

Definition simple (p : predicate) : bool :=
  match p_lead p with [] => false | _ :: _ => true end
  && blank (p_lead p)
  && is_identifier (p_col p)
  && blank (p_gap p)
  && is_operator (p_op p)
  && one_line (p_rest p)
  && no_word is_and_or false (pred_text p).

(** A clause: a first predicate and then connectives with predicates. *)
Fixpoint clause_text (p : predicate) (more : list (str * predicate)) : str :=
  match more with
  | [] => pred_text p
  | (k, p') :: more' => pred_text p ++ k ++ clause_text p' more'
  end.

Fixpoint simple_clause (p : predicate) (more : list (str * predicate))
    : bool :=
  match more with
  | [] => simple p
  | (k, p') :: more' =>
      simple p && ends_nonword (pred_text p) && is_and_or k
      && simple_clause p' more'
  end.

Definition clause_columns (p : predicate) (more : list (str * predicate))
    : list str :=
  p_col p :: map (fun kp => p_col (snd kp)) more.

Definition newline : ascii := "010"%char.

(** The clause of a query with three predicates, one column twice *)
Definition by_customer : predicate :=
  {| p_lead := lit " "; p_col := lit "customer_id"; p_gap := lit " ";
     p_op := lit "="; p_rest := lit " 5 " |}.

Definition by_total : predicate :=
  {| p_lead := lit " "; p_col := lit "total"; p_gap := lit " ";
     p_op := lit ">="; p_rest := lit " 10 " |}.

Definition by_customer_below : predicate :=
  {| p_lead := lit " "; p_col := lit "customer_id"; p_gap := [];
     p_op := lit "<"; p_rest := lit "3;" |}.

(** ** Plan rows, for the statements about the analyzer *)

(** The field [table] of a row *)
Definition row_table (r : row) : pyval := nth 2 r PNone.

(** A row of ten fields whose access type is a string *)
Definition row_ok (r : row) : bool :=
  match r with
  | [_; _; _; PStr _; _; _; _; _; _; _] => true
  | _ => false
  end.

(** The condition under which the loop stores a suggestion: the access
    type is ALL in any case and [possible_keys] or [key] is [None]. *)
Definition full_scan_without_index (r : row) : bool :=
  match r with
  | [_; _; _; PStr type_val; possible_keys; key; _; _; _; _] =>
      wstr_eqb (str_upper type_val) (wide (lit "ALL"))
      && (is_none possible_keys || is_none key)
  | _ => false
  end.

(** The two texts, worded as the specification words them *)
Definition suggestion_text (columns : list str) (table : pyval) : str :=
  match columns with
  | [] =>
      lit "Review the WHERE clause for table '" ++ py_str table
        ++ lit "' and consider adding appropriate indexes."
  | _ :: _ =>
      lit "Consider adding an index on table '" ++ py_str table
        ++ lit "' for columns: " ++ join (lit ", ") columns ++ lit "."
  end.

(** The number of entries of a dictionary under a key *)
Definition entries_for (k : pyval) (d : dict) : nat :=
  length (filter (fun kv => pyval_eqb (fst kv) k) d).

Definition unique_keys (d : dict) : Prop :=
  forall k, entries_for k d <= 1.

(** A row as EXPLAIN returns it for one table, the four fields that the
    analyzer reads left open *)
Definition plan_row (table type_val possible_keys key : pyval) : row :=
  [PInt 1; PStr (lit "SIMPLE"); table; type_val; possible_keys; key;
   PNone; PNone; PInt 1000; PStr (lit "Using where")].

Definition orders_query : str :=
  lit "SELECT * FROM orders WHERE customer_id = 5".

(** Some row of the plan meets the condition for the table [t]. *)
Definition flagged (plan : list row) (t : pyval) : bool :=
  existsb (fun r => full_scan_without_index r && pyval_eqb (row_table r) t)
    plan.

(** The exception of a row that the loop cannot handle *)
Definition row_error (r : row) : exn :=
  if length r =? 10 then AttributeError else ValueError.

Definition three_column_query : str :=
  lit "SELECT * FROM orders WHERE customer_id = 5 AND total >= 10 OR region = 'EU'".

(** ** Direct readings of the three patterns

    What the matcher computes on each pattern, written as plain scans; the
    lemmas of the next part show that the matcher agrees with them. *)

(** The character before the position reached by a star *)
Fixpoint prev_after (p : ascii -> bool) (prev : option ascii) (s : str)
    : option ascii :=
  match s with
  | c :: s' => if p c then prev_after p (Some c) s' else prev
  | [] => prev
  end.

Definition same_letter (c x : ascii) : bool := Ascii.eqb (lower c) (lower x).

Definition where_here (prev : option ascii) (s : str) : bool :=
  match s with
  | c1 :: c2 :: c3 :: c4 :: c5 :: t =>
      at_boundary prev s
      && same_letter c1 "W" && same_letter c2 "H" && same_letter c3 "E"
      && same_letter c4 "R" && same_letter c5 "E"
      && at_boundary (Some c5) t
  | _ => false
  end.

Definition and_here (prev : option ascii) (s : str) : bool :=
  match s with
  | c1 :: c2 :: c3 :: t =>
      at_boundary prev s
      && same_letter c1 "A" && same_letter c2 "N" && same_letter c3 "D"
      && at_boundary (Some c3) t
  | _ => false
  end.

Definition or_here (prev : option ascii) (s : str) : bool :=
  match s with
  | c1 :: c2 :: t =>
      at_boundary prev s
      && same_letter c1 "O" && same_letter c2 "R"
      && at_boundary (Some c2) t
  | _ => false
  end.

Definition is_op_char (c : ascii) : bool :=
  Ascii.eqb c "=" || Ascii.eqb c ">" || Ascii.eqb c "<".

(** The identifier that [col_re] captures at the start of [s], if any *)
Definition scan_col (s : str) : option str :=
  match drop_while is_space s with
  | c :: s1 =>
      if ident_start c then
        match drop_while is_space (drop_while ident_char s1) with
        | o :: _ =>
            if is_op_char o then Some (c :: take_while ident_char s1)
            else None
        | [] => None
        end
      else None
  | [] => None
  end.

(** The clause that [where_re] captures at the leftmost match, if any *)
Fixpoint find_where (prev : option ascii) (s : str) : option str :=
  if where_here prev s then Some (take_while not_newline (skipn 5 s))
  else
    match s with
    | c :: s' => find_where (Some c) s'
    | [] => None
    end.

(** The length of the connective that [and_or_re] matches here, or 0 *)
Definition kw_len (prev : option ascii) (s : str) : nat :=
  if and_here prev s then 3 else if or_here prev s then 2 else 0.

Fixpoint split_kw (prev : option ascii) (s : str) (skip : nat) (acc : str)
    : list str :=
  match skip with
  | S n =>
      match s with
      | c :: s' => split_kw (Some c) s' n acc
      | [] => [rev acc]
      end
  | O =>
      match s with
      | [] => [rev acc]
      | c :: s' =>
          match kw_len prev s with
          | S n => rev acc :: split_kw (Some c) s' n []
          | O => split_kw (Some c) s' 0 (c :: acc)
          end
      end
  end.

Definition part_column (part : str) : list str :=
  match scan_col (strip part) with
  | Some c => [c]
  | None => []
  end.

Definition columns_of (parts : list str) : list str :=
  flat_map part_column parts.

Definition extract_direct (query : str) : list str :=
  match find_where None query with
  | None => []
  | Some conditions => columns_of (split_kw None conditions 0 [])
  end.

(** * Properties *)

(** ** Characters *)

Ltac each_char c :=
  destruct c as [[] [] [] [] [] [] [] []]; vm_compute; try reflexivity;
  try discriminate; auto.

Lemma ident_char_is_word c : ident_char c = true -> is_word c = true.
Proof. each_char c. Qed.

Lemma ident_start_is_word c : ident_start c = true -> is_word c = true.
Proof. each_char c. Qed.

Lemma space_not_word c : is_space c = true -> is_word c = false.
Proof. each_char c. Qed.

Lemma space_not_ident_start c : is_space c = true -> ident_start c = false.
Proof. each_char c. Qed.

Lemma op_char_not_word c : is_op_char c = true -> is_word c = false.
Proof. each_char c. Qed.

Lemma op_char_not_space c : is_op_char c = true -> is_space c = false.
Proof. each_char c. Qed.

Lemma newline_is_space c : is_newline c = true -> is_space c = true.
Proof. each_char c. Qed.

Lemma str_eqb_eq a b : str_eqb a b = true <-> a = b.
Proof.
  unfold str_eqb. destruct (list_eq_dec ascii_dec a b); split; intros H;
    try reflexivity; try assumption; try discriminate; contradiction.
Qed.

Lemma str_eqb_refl a : str_eqb a a = true.
Proof. apply str_eqb_eq. reflexivity. Qed.

Lemma wstr_eqb_eq a b : wstr_eqb a b = true <-> a = b.
Proof.
  unfold wstr_eqb. destruct (list_eq_dec N.eq_dec a b); split; intros H;
    try reflexivity; try assumption; try discriminate; contradiction.
Qed.

Lemma wstr_eqb_refl a : wstr_eqb a a = true.
Proof. apply wstr_eqb_eq. reflexivity. Qed.

(** ** The star *)

Lemma star_run_first (A : Type) p prev s (k : option ascii -> str -> option A) x :
  k (prev_after p prev s) (drop_while p s) = Some x ->
  star_run p prev s k = Some x.
Proof.
  revert prev. induction s as [|c s IH]; intros prev H; simpl in *.
  - exact H.
  - destruct (p c).
    + rewrite (IH _ H). reflexivity.
    + exact H.
Qed.

Lemma star_run_spec (A : Type) p prev s (k : option ascii -> str -> option A) :
  (forall p' c s', p c = true -> k p' (c :: s') = None) ->
  star_run p prev s k = k (prev_after p prev s) (drop_while p s).
Proof.
  intros Hk. revert prev. induction s as [|c s IH]; intros prev; simpl.
  - reflexivity.
  - destruct (p c) eqn:Hc.
    + rewrite IH.
      destruct (k (prev_after p (Some c) s) (drop_while p s)); auto.
    + reflexivity.
Qed.

Lemma take_drop_while p (s : str) : take_while p s ++ drop_while p s = s.
Proof.
  induction s as [|c s IH]; simpl; auto.
  destruct (p c); simpl; congruence.
Qed.

Lemma firstn_app_length (x y : str) :
  firstn (length (x ++ y) - length y) (x ++ y) = x.
Proof.
  rewrite length_app, Nat.add_sub.
  rewrite firstn_app, Nat.sub_diag, firstn_all. simpl. apply app_nil_r.
Qed.

Lemma firstn_take_while p (s : str) :
  firstn (length s - length (drop_while p s)) s = take_while p s.
Proof.
  rewrite <- (take_drop_while p s) at 1 3.
  apply firstn_app_length.
Qed.
Ltac case_ifs :=
  repeat match goal with
  | |- context [if ?b then _ else _] => destruct b eqn:?; cbn [andb]
  end; try reflexivity; try discriminate.

Lemma match_where prev s :
  match_here true where_re prev s =
  if where_here prev s then
    Some {| m_rest := drop_while not_newline (skipn 5 s);
            m_groups := [(1, take_while not_newline (skipn 5 s))] |}
  else None.
Proof.
  unfold match_here, where_re, where_here, same_letter.
  cbn [run word lit list_ascii_of_string].
  destruct (at_boundary prev s) eqn:Hb; cbn [andb].
  2:{ destruct s as [|c1 [|c2 [|c3 [|c4 [|c5 t]]]]]; reflexivity. }
  destruct s as [|c1 [|c2 [|c3 [|c4 [|c5 t]]]]]; cbn [andb atom_ok skipn];
    try (case_ifs; fail).
  destruct (Ascii.eqb (lower c1) (lower "W")); cbn [andb]; try reflexivity.
  destruct (Ascii.eqb (lower c2) (lower "H")); cbn [andb]; try reflexivity.
  destruct (Ascii.eqb (lower c3) (lower "E")); cbn [andb]; try reflexivity.
  destruct (Ascii.eqb (lower c4) (lower "R")); cbn [andb]; try reflexivity.
  destruct (Ascii.eqb (lower c5) (lower "E")); cbn [andb]; try reflexivity.
  destruct (at_boundary (Some c5) t); try reflexivity.
  apply star_run_first. rewrite firstn_take_while. reflexivity.
Qed.

Lemma match_and_or prev s :
  match_here true and_or_re prev s =
  if and_here prev s then Some {| m_rest := skipn 3 s; m_groups := [] |}
  else if or_here prev s then Some {| m_rest := skipn 2 s; m_groups := [] |}
  else None.
Proof.
  unfold match_here, and_or_re, and_here, or_here, same_letter.
  cbn [run word lit list_ascii_of_string].
  destruct (at_boundary prev s) eqn:Hb; cbn [andb].
  2:{ destruct s as [|c1 [|c2 [|c3 t]]]; reflexivity. }
  destruct s as [|c1 [|c2 [|c3 t]]]; cbn [andb atom_ok skipn];
    try (case_ifs; fail).
Qed.
Lemma ident_char_not_space c : ident_char c = true -> is_space c = false.
Proof. each_char c. Qed.

Lemma ident_char_not_op c : ident_char c = true -> is_op_char c = false.
Proof. each_char c. Qed.

Lemma space_not_op c : is_space c = true -> is_op_char c = false.
Proof. each_char c. Qed.

Lemma op_char_split c :
  is_op_char c = false ->
  Ascii.eqb c "=" = false /\ Ascii.eqb c ">" = false /\ Ascii.eqb c "<" = false.
Proof.
  unfold is_op_char. intros H.
  destruct (Ascii.eqb c "="), (Ascii.eqb c ">"), (Ascii.eqb c "<");
    try discriminate; auto.
Qed.

Lemma firstn_cons_take_while p c (s1 : str) :
  firstn (length (c :: s1) - length (drop_while p s1)) (c :: s1)
  = c :: take_while p s1.
Proof.
  rewrite <- (take_drop_while p s1) at 1 3.
  change (c :: take_while p s1 ++ drop_while p s1)
    with ((c :: take_while p s1) ++ drop_while p s1).
  apply firstn_app_length.
Qed.

Lemma match_col s :
  option_map (fun m => group m 1) (re_match false col_re s)
  = option_map PStr (scan_col s).
Proof.
  unfold re_match, match_here, col_re, op_re, scan_col.
  cbn [run word lit list_ascii_of_string atom_ok].
  change (atom_ok false ASpace) with is_space.
  change (atom_ok false (ASet ident_char)) with ident_char.
  rewrite star_run_spec.
  2:{ intros p' c s' Hc. rewrite (space_not_ident_start _ Hc). reflexivity. }
  destruct (drop_while is_space s) as [|c s1]; [reflexivity|].
  destruct (ident_start c) eqn:Hc; [|reflexivity].
  rewrite star_run_spec.
  2:{ intros p' c0 s' H0. cbn [star_run].
      rewrite (ident_char_not_space _ H0).
      destruct (op_char_split _ (ident_char_not_op _ H0)) as (E1 & E2 & E3).
      rewrite E1, E2, E3. reflexivity. }
  rewrite star_run_spec.
  2:{ intros p' c0 s' H0.
      destruct (op_char_split _ (space_not_op _ H0)) as (E1 & E2 & E3).
      rewrite E1, E2, E3. reflexivity. }
  rewrite firstn_cons_take_while.
  destruct (drop_while is_space (drop_while ident_char s1)) as [|o s4];
    [reflexivity|].
  unfold is_op_char.
  destruct (Ascii.eqb o "="); [reflexivity|].
  destruct (Ascii.eqb o ">"); [reflexivity|].
  destruct (Ascii.eqb o "<"); reflexivity.
Qed.

(** ** The extractor agrees with the direct reading *)

Lemma search_where prev s :
  option_map (fun m => group m 1) (search_from true where_re prev s)
  = option_map PStr (find_where prev s).
Proof.
  revert prev. induction s as [|c s IH]; intros prev.
  - cbn [search_from find_where]. rewrite match_where.
    destruct (where_here prev []); reflexivity.
  - cbn [search_from find_where]. rewrite match_where.
    destruct (where_here prev (c :: s)); [reflexivity | apply IH].
Qed.

Lemma length_skipn_sub (s : str) n :
  n <= length s -> length s - length (skipn n s) = n.
Proof. intros H. rewrite length_skipn. lia. Qed.

Lemma split_and_or prev s skip acc :
  split_from true and_or_re prev s skip acc = split_kw prev s skip acc.
Proof.
  revert prev skip acc. induction s as [|c s IH]; intros prev skip acc.
  - destruct skip; reflexivity.
  - destruct skip as [|n]; cbn [split_from split_kw]; [|apply IH].
    rewrite match_and_or. unfold kw_len.
    destruct (and_here prev (c :: s)) eqn:Ha.
    + cbn [m_rest]. rewrite length_skipn_sub.
      * rewrite IH. reflexivity.
      * unfold and_here in Ha. destruct s as [|c2 [|c3 t]]; try discriminate.
        simpl. lia.
    + destruct (or_here prev (c :: s)) eqn:Ho.
      * cbn [m_rest]. rewrite length_skipn_sub.
        -- rewrite IH. reflexivity.
        -- unfold or_here in Ho. destruct s as [|c2 t]; try discriminate.
           simpl. lia.
      * apply IH.
Qed.

Lemma add_column_direct columns part :
  add_column columns part = columns ++ map PStr (part_column part).
Proof.
  unfold add_column, part_column.
  pose proof (match_col (strip part)) as H.
  destruct (re_match false col_re (strip part)), (scan_col (strip part));
    simpl in *; try discriminate.
  - injection H as ->. reflexivity.
  - symmetry. apply app_nil_r.
Qed.

Lemma fold_add_column parts columns :
  fold_left add_column parts columns
  = columns ++ map PStr (columns_of parts).
Proof.
  revert columns. induction parts as [|part parts IH]; intros columns; simpl.
  - symmetry. apply app_nil_r.
  - rewrite IH, add_column_direct. unfold columns_of. simpl.
    rewrite map_app, app_assoc. reflexivity.
Qed.

Lemma extract_is_direct query :
  extract_columns_from_where query = Ok (map PStr (extract_direct query)).
Proof.
  unfold extract_columns_from_where, extract_direct, re_search, re_split.
  pose proof (search_where None query) as H.
  destruct (search_from true where_re None query) as [m|],
    (find_where None query) as [conditions|]; simpl in H; try discriminate.
  - injection H as ->. rewrite split_and_or, fold_add_column. reflexivity.
  - reflexivity.
Qed.

(** ** The dictionary *)

Lemma pyval_eqb_eq a b : pyval_eqb a b = true <-> a = b.
Proof.
  destruct a, b; simpl; split; intros H; try discriminate; try reflexivity.
  - apply str_eqb_eq in H. congruence.
  - injection H as ->. apply str_eqb_refl.
  - apply Z.eqb_eq in H. congruence.
  - injection H as ->. apply Z.eqb_refl.
Qed.

Lemma pyval_eqb_refl a : pyval_eqb a a = true.
Proof. apply pyval_eqb_eq. reflexivity. Qed.

Lemma pyval_eqb_neq a b : a <> b -> pyval_eqb a b = false.
Proof.
  intros H. destruct (pyval_eqb a b) eqn:E; auto.
  apply pyval_eqb_eq in E. contradiction.
Qed.

Lemma dict_get_set_same k v d : dict_get k (dict_set k v d) = Some v.
Proof.
  induction d as [|[k' v'] d IH]; simpl.
  - rewrite pyval_eqb_refl. reflexivity.
  - destruct (pyval_eqb k' k) eqn:E; simpl; rewrite E; auto.
Qed.

Lemma dict_get_set_other k k' v d :
  k <> k' -> dict_get k' (dict_set k v d) = dict_get k' d.
Proof.
  intros Hne. induction d as [|[k0 v0] d IH]; simpl.
  - rewrite (pyval_eqb_neq _ _ Hne). reflexivity.
  - destruct (pyval_eqb k0 k) eqn:E; simpl.
    + apply pyval_eqb_eq in E. subst k0.
      rewrite (pyval_eqb_neq _ _ Hne). reflexivity.
    + destruct (pyval_eqb k0 k'); auto.
Qed.

Lemma entries_set k k' v d :
  entries_for k' (dict_set k v d)
  = if pyval_eqb k k' then Nat.max 1 (entries_for k' d) else entries_for k' d.
Proof.
  unfold entries_for. destruct (pyval_eqb k k') eqn:Ek.
  - apply pyval_eqb_eq in Ek. subst k'.
    induction d as [|[k0 v0] d IH]; simpl.
    + rewrite pyval_eqb_refl. reflexivity.
    + destruct (pyval_eqb k0 k) eqn:E; simpl; rewrite E; simpl.
      * reflexivity.
      * exact IH.
  - induction d as [|[k0 v0] d IH]; simpl.
    + rewrite Ek. reflexivity.
    + destruct (pyval_eqb k0 k) eqn:E; simpl.
      * apply pyval_eqb_eq in E. subst k0. rewrite Ek. reflexivity.
      * destruct (pyval_eqb k0 k'); simpl; rewrite IH; reflexivity.
Qed.

Lemma unique_keys_set k v d : unique_keys d -> unique_keys (dict_set k v d).
Proof.
  intros H k'. rewrite entries_set. specialize (H k').
  destruct (pyval_eqb k k'); lia.
Qed.

Lemma entries_set_same k v d :
  unique_keys d -> entries_for k (dict_set k v d) = 1.
Proof.
  intros H. rewrite entries_set, pyval_eqb_refl. specialize (H k). lia.
Qed.

Lemma unique_keys_nil : unique_keys [].
Proof. intros k. unfold entries_for. simpl. lia. Qed.

(** ** One row *)

(** Split a row into its fields and keep the well-formed case. *)
Ltac destruct_row r f3 type_val :=
  let z := fresh "z" in
  destruct r as [|? [|? [|? [|f3 r]]]]; try discriminate;
  destruct f3 as [|type_val|z];
  destruct r as [|? [|? [|? [|? [|? [|? [|]]]]]]]; try discriminate.

Lemma strings_of_map cols : strings_of (map PStr cols) = Ok cols.
Proof.
  induction cols as [|c cols IH]; simpl; [reflexivity|].
  rewrite IH. reflexivity.
Qed.

Lemma make_suggestion_text cols table :
  make_suggestion (map PStr cols) table = Ok (suggestion_text cols table).
Proof.
  destruct cols as [|c cols]; [reflexivity|].
  unfold make_suggestion, py_join.
  change (map PStr (c :: cols)) with (PStr c :: map PStr cols) at 1.
  cbv iota beta. rewrite strings_of_map. reflexivity.
Qed.

(** What the loop body does with a row that unpacks and whose access type
    is a string. *)
Lemma analyze_row_ok cols d r :
  row_ok r = true ->
  analyze_row (map PStr cols) d r
  = if full_scan_without_index r
    then Ok (dict_set (row_table r) (suggestion_text cols (row_table r)) d)
    else Ok d.
Proof.
  intros Hok. unfold row_ok in Hok.
  destruct_row r f3 type_val.
  unfold analyze_row, full_scan_without_index, row_table. cbn [py_upper bind nth].
  destruct (wstr_eqb (str_upper type_val) (wide (lit "ALL"))); cbn [andb];
    auto.
  match goal with |- context [is_none ?a || is_none ?b] =>
    destruct (is_none a || is_none b); auto end.
  rewrite make_suggestion_text. reflexivity.
Qed.

Lemma full_scan_row_ok r : full_scan_without_index r = true -> row_ok r = true.
Proof.
  unfold full_scan_without_index, row_ok.
  destruct_row r f3 type_val. reflexivity.
Qed.

(** A row that raises stops the loop. *)
Lemma analyze_row_raises_not_ok cols d r d' :
  analyze_row cols d r = Ok d' -> row_ok r = true.
Proof.
  unfold analyze_row, row_ok.
  destruct_row r f3 type_val. reflexivity.
Qed.

(** ** The loop over the plan *)

Lemma analyze_rows_app cols d p1 p2 :
  analyze_rows cols d (p1 ++ p2)
  = (d1 <- analyze_rows cols d p1 ;; analyze_rows cols d1 p2).
Proof.
  revert d. induction p1 as [|r p1 IH]; intros d; simpl; [reflexivity|].
  destruct (analyze_row cols d r); simpl; auto.
Qed.

Lemma analyze_rows_unique cols d plan d' :
  unique_keys d -> analyze_rows (map PStr cols) d plan = Ok d' ->
  unique_keys d'.
Proof.
  revert d. induction plan as [|r plan IH]; intros d Hu H; simpl in H.
  - injection H as <-. exact Hu.
  - destruct (analyze_row (map PStr cols) d r) as [d1|] eqn:E;
      simpl in H; [|discriminate].
    apply (IH d1); auto.
    rewrite analyze_row_ok in E by (eapply analyze_row_raises_not_ok; eauto).
    destruct (full_scan_without_index r); injection E as <-; auto.
    apply unique_keys_set, Hu.
Qed.

(** Rows leave the entry of a table as it is or set it to the text of that
    table. *)
Lemma analyze_rows_keeps cols t plan : forall d d',
  analyze_rows (map PStr cols) d plan = Ok d' ->
  dict_get t d = Some (suggestion_text cols t) ->
  dict_get t d' = Some (suggestion_text cols t).
Proof.
  induction plan as [|r plan IH]; intros d d' H Hg; simpl in H.
  - injection H as <-. exact Hg.
  - destruct (analyze_row (map PStr cols) d r) as [d1|] eqn:E;
      simpl in H; [|discriminate].
    apply (IH d1); auto.
    rewrite analyze_row_ok in E by (eapply analyze_row_raises_not_ok; eauto).
    destruct (full_scan_without_index r); injection E as <-; auto.
    destruct (pyval_eqb (row_table r) t) eqn:Et.
    + apply pyval_eqb_eq in Et. subst t. apply dict_get_set_same.
    + rewrite dict_get_set_other; auto.
      intros Heq. rewrite Heq, pyval_eqb_refl in Et. discriminate.
Qed.

(** A later row that triggers overwrites whatever the table had. *)
Lemma analyze_rows_overwrites cols pre r post d d' :
  analyze_rows (map PStr cols) d (pre ++ r :: post) = Ok d' ->
  full_scan_without_index r = true ->
  dict_get (row_table r) d' = Some (suggestion_text cols (row_table r)).
Proof.
  intros H Hr. rewrite analyze_rows_app in H.
  destruct (analyze_rows (map PStr cols) d pre) as [d1|]; simpl in H;
    [|discriminate].
  rewrite analyze_row_ok in H by (apply full_scan_row_ok, Hr).
  rewrite Hr in H. simpl in H.
  eapply analyze_rows_keeps; eauto. apply dict_get_set_same.
Qed.

Lemma analyze_rows_entry cols pre r post d d' :
  unique_keys d ->
  analyze_rows (map PStr cols) d (pre ++ r :: post) = Ok d' ->
  full_scan_without_index r = true ->
  entries_for (row_table r) d' = 1.
Proof.
  intros Hu H Hr.
  pose proof (analyze_rows_unique _ _ _ _ Hu H (row_table r)) as Hle.
  pose proof (analyze_rows_overwrites _ _ _ _ _ _ H Hr) as Hg.
  assert (entries_for (row_table r) d' <> 0); [|lia].
  clear - Hg. unfold entries_for. induction d' as [|[k v] d' IH]; simpl in *.
  - discriminate.
  - destruct (pyval_eqb k (row_table r)); simpl; auto.
Qed.

Lemma analyze_rows_total cols plan : forall d,
  forallb row_ok plan = true ->
  exists d', analyze_rows (map PStr cols) d plan = Ok d'.
Proof.
  induction plan as [|r plan IH]; intros d H; simpl in *.
  - eauto.
  - apply andb_true_iff in H as [Hr Hp].
    rewrite (analyze_row_ok _ _ _ Hr).
    destruct (full_scan_without_index r); simpl; auto.
Qed.

Lemma analyze_direct plan query :
  analyze_plan_and_suggest plan query
  = analyze_rows (map PStr (extract_direct query)) [] plan.
Proof.
  unfold analyze_plan_and_suggest. rewrite extract_is_direct. reflexivity.
Qed.

(** ** The analyzer: the claims *)

(** C1, as stated, fails: a full scan whose possible_keys is empty, the
    empty string and not None, and whose key is set stores nothing: the
    loop asks whether possible_keys is None, not whether it is empty. *)
Theorem empty_possible_keys_not_flagged :
  full_scan_without_index
    (plan_row (PStr (lit "orders")) (PStr (lit "ALL")) (PStr [])
       (PStr (lit "idx_customer"))) = false
  /\ analyze_plan_and_suggest
       [plan_row (PStr (lit "orders")) (PStr (lit "ALL")) (PStr [])
          (PStr (lit "idx_customer"))]
       orders_query
     = Ok [].
Proof. split; vm_compute; reflexivity. Qed.

(** C2, as stated, fails: a full scan whose key is idx_customer and whose
    possible_keys is None is flagged. *)
Lemma key_present_still_flagged :
  analyze_plan_and_suggest
    [plan_row (PStr (lit "orders")) (PStr (lit "ALL")) PNone
       (PStr (lit "idx_customer"))]
    orders_query
  = Ok [(PStr (lit "orders"),
         lit "Consider adding an index on table 'orders' for columns: customer_id.")].
Proof. vm_compute. reflexivity. Qed.

(** C2 (amended): a row whose access type is ALL and whose key and
    possible_keys are both present (not None) leaves the suggestions as
    they are, and a plan of that row alone yields the empty mapping. *)
Theorem keys_present_no_suggestion
    query cols d id_val select_type table type_val possible_keys key key_len
    ref rows extra :
  str_upper type_val = wide (lit "ALL") ->
  key <> PNone ->
  possible_keys <> PNone ->
  analyze_row cols d
    [id_val; select_type; table; PStr type_val; possible_keys; key; key_len;
     ref; rows; extra] = Ok d
  /\ analyze_plan_and_suggest
       [[id_val; select_type; table; PStr type_val; possible_keys; key;
         key_len; ref; rows; extra]] query = Ok [].
Proof.
  intros Hall Hkey Hpk.
  assert (Hrow : forall cols d, analyze_row cols d
    [id_val; select_type; table; PStr type_val; possible_keys; key; key_len;
     ref; rows; extra] = Ok d).
  { intros cols0 d0. unfold analyze_row. cbn [py_upper bind].
    rewrite Hall, wstr_eqb_refl.
    destruct possible_keys, key; try contradiction; reflexivity. }
  split; [apply Hrow|].
  rewrite analyze_direct. cbn [analyze_rows]. rewrite Hrow. reflexivity.
Qed.

Lemma keys_present_no_suggestion_witness :
  analyze_row [] []
    (plan_row (PStr (lit "orders")) (PStr (lit "all"))
       (PStr (lit "idx_customer,idx_date")) (PStr (lit "idx_customer")))
  = Ok []
  /\ analyze_plan_and_suggest
       [plan_row (PStr (lit "orders")) (PStr (lit "all"))
          (PStr (lit "idx_customer,idx_date")) (PStr (lit "idx_customer"))]
       orders_query = Ok [].
Proof.
  apply (@keys_present_no_suggestion orders_query [] [] (PInt 1)
           (PStr (lit "SIMPLE")) (PStr (lit "orders")) (lit "all")
           (PStr (lit "idx_customer,idx_date")) (PStr (lit "idx_customer"))
           PNone PNone (PInt 1000) (PStr (lit "Using where"))).
  - reflexivity.
  - discriminate.
  - discriminate.
Defined.

Lemma join_flat sep c rest :
  join sep (c :: rest) = c ++ flat_map (fun x => sep ++ x) rest.
Proof.
  revert c. induction rest as [|d rest IH]; intros c.
  - simpl. symmetry. apply app_nil_r.
  - change (join sep (c :: d :: rest)) with (c ++ sep ++ join sep (d :: rest)).
    rewrite IH. cbn [flat_map]. rewrite <- app_assoc. reflexivity.
Qed.

Lemma suggestion_text_spelled cols t :
  suggestion_text cols t
  = match cols with
    | [] =>
        lit "Review the WHERE clause for table '" ++ py_str t
          ++ lit "' and consider adding appropriate indexes."
    | c :: rest =>
        lit "Consider adding an index on table '" ++ py_str t
          ++ lit "' for columns: " ++ c
          ++ flat_map (fun x => lit ", " ++ x) rest ++ lit "."
    end.
Proof.
  destruct cols as [|c rest]; [reflexivity|].
  unfold suggestion_text. rewrite join_flat, <- app_assoc. reflexivity.
Qed.

(** C4: when a row of the plan triggers, the text stored for its table is
    the review text if the query yields no candidate column, and else the
    index text, which lists the candidate columns in their order: the
    first one as it is, every further one behind a comma and a space, and
    a full stop at the end. *)
Theorem suggestion_text_stored plan query d r :
  analyze_plan_and_suggest plan query = Ok d ->
  In r plan ->
  full_scan_without_index r = true ->
  exists cols,
    extract_columns_from_where query = Ok (map PStr cols)
    /\ dict_get (row_table r) d
       = Some
           match cols with
           | [] =>
               lit "Review the WHERE clause for table '"
                 ++ py_str (row_table r)
                 ++ lit "' and consider adding appropriate indexes."
           | c :: rest =>
               lit "Consider adding an index on table '"
                 ++ py_str (row_table r)
                 ++ lit "' for columns: " ++ c
                 ++ flat_map (fun x => lit ", " ++ x) rest ++ lit "."
           end.
Proof.
  intros H Hin Hr. exists (extract_direct query).
  split; [apply extract_is_direct|].
  rewrite analyze_direct in H.
  apply in_split in Hin as (pre & post & ->).
  rewrite <- suggestion_text_spelled.
  apply (analyze_rows_overwrites _ _ _ _ _ _ H Hr).
Qed.

Lemma suggestion_text_stored_witness :
  exists cols,
    extract_columns_from_where three_column_query = Ok (map PStr cols)
    /\ dict_get (PStr (lit "orders"))
         [(PStr (lit "orders"),
           lit "Consider adding an index on table 'orders' for columns: customer_id, total, region.")]
       = Some
           match cols with
           | [] =>
               lit "Review the WHERE clause for table '"
                 ++ lit "orders"
                 ++ lit "' and consider adding appropriate indexes."
           | c :: rest =>
               lit "Consider adding an index on table '"
                 ++ lit "orders"
                 ++ lit "' for columns: " ++ c
                 ++ flat_map (fun x => lit ", " ++ x) rest ++ lit "."
           end.
Proof.
  apply (suggestion_text_stored
           [plan_row (PStr (lit "customers")) (PStr (lit "ref")) PNone PNone;
            plan_row (PStr (lit "orders")) (PStr (lit "ALL")) PNone PNone]
           three_column_query
           [(PStr (lit "orders"),
             lit "Consider adding an index on table 'orders' for columns: customer_id, total, region.")]
           (plan_row (PStr (lit "orders")) (PStr (lit "ALL")) PNone PNone)).
  - vm_compute. reflexivity.
  - right. left. reflexivity.
  - reflexivity.
Defined.

(** The orders example of the specification, and a query with three
    columns *)
Example orders_suggestion :
  analyze_plan_and_suggest
    [plan_row (PStr (lit "orders")) (PStr (lit "ALL")) PNone PNone]
    orders_query
  = Ok [(PStr (lit "orders"),
         lit "Consider adding an index on table 'orders' for columns: customer_id.")].
Proof. vm_compute. reflexivity. Qed.

Example three_column_suggestion :
  analyze_plan_and_suggest
    [plan_row (PStr (lit "orders")) (PStr (lit "ALL")) PNone PNone]
    three_column_query
  = Ok [(PStr (lit "orders"),
         lit "Consider adding an index on table 'orders' for columns: customer_id, total, region.")].
Proof. vm_compute. reflexivity. Qed.

(** C5: when rows of the plan trigger for one table, the returned mapping
    has exactly one entry for that table, and the entry is the text of the
    triggering row, whichever of them it is and so of the last one: every
    later write replaces the value under the key. *)
Theorem last_write_wins plan query d pre r post :
  analyze_plan_and_suggest plan query = Ok d ->
  plan = pre ++ r :: post ->
  full_scan_without_index r = true ->
  exists cols,
    extract_columns_from_where query = Ok (map PStr cols)
    /\ make_suggestion (map PStr cols) (row_table r)
       = Ok (suggestion_text cols (row_table r))
    /\ dict_get (row_table r) d = Some (suggestion_text cols (row_table r))
    /\ entries_for (row_table r) d = 1.
Proof.
  intros H -> Hr. exists (extract_direct query).
  rewrite analyze_direct in H.
  split; [apply extract_is_direct|].
  split; [apply make_suggestion_text|].
  split.
  - apply (analyze_rows_overwrites _ _ _ _ _ _ H Hr).
  - apply (analyze_rows_entry _ _ _ _ _ _ unique_keys_nil H Hr).
Qed.

Lemma last_write_wins_witness :
  exists cols,
    extract_columns_from_where orders_query = Ok (map PStr cols)
    /\ make_suggestion (map PStr cols) (PStr (lit "orders"))
       = Ok (suggestion_text cols (PStr (lit "orders")))
    /\ dict_get (PStr (lit "orders"))
         [(PStr (lit "orders"),
           lit "Consider adding an index on table 'orders' for columns: customer_id.")]
       = Some (suggestion_text cols (PStr (lit "orders")))
    /\ entries_for (PStr (lit "orders"))
         [(PStr (lit "orders"),
           lit "Consider adding an index on table 'orders' for columns: customer_id.")]
       = 1.
Proof.
  apply (last_write_wins
           [plan_row (PStr (lit "orders")) (PStr (lit "ALL")) PNone PNone;
            plan_row (PStr (lit "orders")) (PStr (lit "ALL")) PNone
              (PStr (lit "idx_customer"))]
           orders_query
           [(PStr (lit "orders"),
             lit "Consider adding an index on table 'orders' for columns: customer_id.")]
           [plan_row (PStr (lit "orders")) (PStr (lit "ALL")) PNone PNone]
           (plan_row (PStr (lit "orders")) (PStr (lit "ALL")) PNone
              (PStr (lit "idx_customer")))
           []).
  - vm_compute. reflexivity.
  - reflexivity.
  - reflexivity.
Defined.

(** C10: a row whose table is None and that meets the condition, wherever
    it stands in a plan whose other rows are well formed, is not skipped
    and raises nothing: the returned mapping has one entry under the key
    None, whose text names the table as 'None'. *)
Theorem null_table_suggestion
    pre post query id_val select_type type_val possible_keys key key_len ref
    rows extra :
  str_upper type_val = wide (lit "ALL") ->
  is_none possible_keys || is_none key = true ->
  forallb row_ok pre = true ->
  forallb row_ok post = true ->
  exists cols d,
    extract_columns_from_where query = Ok (map PStr cols)
    /\ analyze_plan_and_suggest
         (pre
          ++ [id_val; select_type; PNone; PStr type_val; possible_keys; key;
              key_len; ref; rows; extra] :: post) query
       = Ok d
    /\ dict_get PNone d
       = Some
           match cols with
           | [] =>
               lit "Review the WHERE clause for table 'None' and consider adding appropriate indexes."
           | c :: rest =>
               lit "Consider adding an index on table 'None' for columns: "
                 ++ c ++ flat_map (fun x => lit ", " ++ x) rest ++ lit "."
           end
    /\ entries_for PNone d = 1.
Proof.
  intros Hall Hnone Hpre Hpost.
  set (r := [id_val; select_type; PNone; PStr type_val; possible_keys; key;
             key_len; ref; rows; extra]).
  assert (Hr : full_scan_without_index r = true).
  { unfold r, full_scan_without_index.
    rewrite Hall, wstr_eqb_refl, Hnone. reflexivity. }
  assert (Hok : forallb row_ok (pre ++ r :: post) = true).
  { rewrite forallb_app. cbn [forallb].
    rewrite Hpre, Hpost, (full_scan_row_ok _ Hr). reflexivity. }
  destruct (analyze_rows_total (extract_direct query) _ [] Hok) as [d Hd].
  exists (extract_direct query), d.
  split; [apply extract_is_direct|].
  split; [rewrite analyze_direct; exact Hd|].
  split.
  - pose proof (analyze_rows_overwrites _ _ _ _ _ _ Hd Hr) as Hg.
    change (row_table r) with PNone in Hg. rewrite Hg.
    rewrite suggestion_text_spelled.
    destruct (extract_direct query); reflexivity.
  - apply (analyze_rows_entry _ _ _ _ _ _ unique_keys_nil Hd Hr).
Qed.

Lemma null_table_suggestion_witness :
  exists cols d,
    extract_columns_from_where three_column_query = Ok (map PStr cols)
    /\ analyze_plan_and_suggest
         ([plan_row (PStr (lit "orders")) (PStr (lit "ALL")) PNone PNone]
          ++ plan_row PNone (PStr (lit "All")) PNone
               (PStr (lit "idx_customer"))
          :: [plan_row (PStr (lit "customers")) (PStr (lit "ref")) PNone
                PNone])
         three_column_query
       = Ok d
    /\ dict_get PNone d
       = Some
           match cols with
           | [] =>
               lit "Review the WHERE clause for table 'None' and consider adding appropriate indexes."
           | c :: rest =>
               lit "Consider adding an index on table 'None' for columns: "
                 ++ c ++ flat_map (fun x => lit ", " ++ x) rest ++ lit "."
           end
    /\ entries_for PNone d = 1.
Proof.
  apply (null_table_suggestion
           [plan_row (PStr (lit "orders")) (PStr (lit "ALL")) PNone PNone]
           [plan_row (PStr (lit "customers")) (PStr (lit "ref")) PNone PNone]
           three_column_query (PInt 1) (PStr (lit "SIMPLE")) (lit "All")
           PNone (PStr (lit "idx_customer")) PNone PNone (PInt 1000)
           (PStr (lit "Using where"))); reflexivity.
Defined.

(** A derived row between two others *)
Example derived_row_suggestion :
  analyze_plan_and_suggest
    [plan_row (PStr (lit "customers")) (PStr (lit "ref")) PNone PNone;
     plan_row PNone (PStr (lit "ALL")) PNone PNone;
     plan_row (PStr (lit "orders")) (PStr (lit "index")) PNone PNone]
    three_column_query
  = Ok [(PNone,
         lit "Consider adding an index on table 'None' for columns: customer_id, total, region.")].
Proof. vm_compute. reflexivity. Qed.

(** C6, as stated, fails: a row whose access type is None raises
    AttributeError and a row of three fields raises ValueError. *)
Lemma absent_access_type_raises :
  analyze_plan_and_suggest
    [plan_row (PStr (lit "orders")) PNone PNone PNone] orders_query
  = Raise AttributeError
  /\ analyze_plan_and_suggest
       [[PInt 1; PStr (lit "SIMPLE"); PStr (lit "orders")]] orders_query
     = Raise ValueError.
Proof. split; vm_compute; reflexivity. Qed.

Lemma scan_col_identifier s c : scan_col s = Some c -> is_identifier c = true.
Proof.
  unfold scan_col.
  destruct (drop_while is_space s) as [|c0 s1]; [discriminate|].
  destruct (ident_start c0) eqn:H0; [|discriminate].
  destruct (drop_while is_space (drop_while ident_char s1)) as [|o s4];
    [discriminate|].
  destruct (is_op_char o); [|discriminate].
  intros H. injection H as <-. simpl. rewrite H0. simpl.
  clear. induction s1 as [|a s1 IH]; simpl; auto.
  destruct (ident_char a) eqn:Ha; simpl; auto. rewrite Ha. exact IH.
Qed.

Lemma columns_of_identifiers parts :
  forallb is_identifier (columns_of parts) = true.
Proof.
  unfold columns_of. induction parts as [|p parts IH]; simpl; auto.
  rewrite forallb_app, IH, andb_true_r.
  unfold part_column. destruct (scan_col (strip p)) eqn:E; simpl; auto.
  rewrite (scan_col_identifier _ _ E). reflexivity.
Qed.

(** C6 (amended): the extractor raises on no string: it returns a list,
    which may be empty, of identifiers.  The analyzer raises on no plan
    whose rows have their ten fields and a string as access type, whatever
    their other fields are; a None in possible_keys or in key of a full
    scan counts as no index and puts the table into the mapping. *)
Theorem core_raises_nothing :
  (forall query, exists cols,
      extract_columns_from_where query = Ok (map PStr cols)
      /\ forallb is_identifier cols = true)
  /\ (forall plan query,
        forallb row_ok plan = true ->
        exists d,
          analyze_plan_and_suggest plan query = Ok d
          /\ forall id_val select_type table type_val possible_keys key
               key_len ref rows extra,
               In [id_val; select_type; table; PStr type_val; possible_keys;
                   key; key_len; ref; rows; extra] plan ->
               str_upper type_val = wide (lit "ALL") ->
               possible_keys = PNone \/ key = PNone ->
               dict_get table d <> None).
Proof.
  split.
  - intros query. exists (extract_direct query).
    split; [apply extract_is_direct|].
    unfold extract_direct. destruct (find_where None query); auto.
    apply columns_of_identifiers.
  - intros plan query Hok. rewrite analyze_direct.
    destruct (analyze_rows_total (extract_direct query) plan [] Hok)
      as [d Hd].
    exists d. split; [exact Hd|].
    intros id_val select_type table type_val possible_keys key key_len ref
      rows extra Hin Hall Hnone.
    apply in_split in Hin as (pre & post & ->).
    assert (Hfs : full_scan_without_index
              [id_val; select_type; table; PStr type_val; possible_keys; key;
               key_len; ref; rows; extra] = true).
    { unfold full_scan_without_index. rewrite Hall, wstr_eqb_refl.
      destruct Hnone as [-> | ->]; simpl; auto. apply orb_true_r. }
    pose proof (analyze_rows_overwrites _ _ _ _ _ _ Hd Hfs) as Hg.
    cbn [row_table nth] in Hg. rewrite Hg. discriminate.
Qed.

Lemma core_raises_nothing_witness :
  exists d,
    analyze_plan_and_suggest
      [plan_row (PStr (lit "orders")) (PStr (lit "ALL")) PNone PNone]
      orders_query = Ok d
    /\ dict_get (PStr (lit "orders")) d <> None.
Proof.
  destruct core_raises_nothing as [_ H].
  destruct (H [plan_row (PStr (lit "orders")) (PStr (lit "ALL")) PNone PNone]
              orders_query eq_refl) as [d [Hd Hrow]].
  exists d. split; [exact Hd|].
  apply (Hrow (PInt 1) (PStr (lit "SIMPLE")) (PStr (lit "orders"))
           (lit "ALL") PNone PNone PNone PNone (PInt 1000)
           (PStr (lit "Using where"))).
  - left. reflexivity.
  - reflexivity.
  - left. reflexivity.
Defined.

(** ** The reporting layer *)

(** C7: the improvement is (before - after) / before * 100 on the two
    durations, and it is 0 when the duration before is zero, which is when
    a float is falsy; no division by zero is ever made, so that the
    computation raises nothing. *)
Theorem improvement_formula (original_time optimized_time : float) :
  improvement original_time optimized_time
  = if PrimFloat.eqb original_time 0%float then Ok (NInt 0)
    else
      Ok (NFloat
            (PrimFloat.mul
               (PrimFloat.div
                  (PrimFloat.sub original_time optimized_time)
                  original_time)
               100%float)).
Proof.
  unfold improvement, float_truthy, float_truediv.
  destruct (PrimFloat.eqb original_time 0%float); reflexivity.
Qed.

Example improvement_halved : improvement 2%float 1%float = Ok (NFloat 50%float).
Proof. reflexivity. Qed.

Example improvement_of_zero : improvement 0%float 1%float = Ok (NInt 0).
Proof. reflexivity. Qed.

Example improvement_of_negative_zero :
  improvement (-0)%float 1%float = Ok (NInt 0).
Proof. reflexivity. Qed.

(** ** The periodic task *)

Ltac run_task :=
  unfold steps, body_outcome, automated_task, try_except_finally, task_body,
    task_handler, task_final, queries_ok, then_, call, assign_cursor,
    subscript, ret, raise, start, returns, fetch_count_ok, fetch_status_ok,
    fetched_truthy, is_db_error;
  cbn.

Ltac step_world :=
  match goal with
  | |- context [match ?x with _ => _ end] => is_var x; destruct x; cbn
  | |- context [if ?x then _ else _] => is_var x; destruct x; cbn
  | |- context [negb ?x] => is_var x; destruct x; cbn
  end.

Ltac each_world w :=
  destruct w as [c tx st x1 f1 x2 f2 cm rb cl]; run_task; repeat step_world.

Ltac close_case :=
  try (split; intros); try discriminate; try reflexivity;
  try (intuition (try discriminate; auto); fail).

Lemma start_only_when_idle w :
  In EStartTransaction (steps w)
  <-> returns (w_cursor w) = true /\ w_in_transaction w = false.
Proof. each_world w; close_case. Qed.

Lemma calls_when_queries_ok w :
  queries_ok w = true ->
  steps w
  = [ECursor]
    ++ (if w_in_transaction w then [] else [EStartTransaction])
    ++ [EExecute count_query; EFetchOne; EExecute status_query; EFetchOne;
        ECommit]
    ++ (if is_db_error (w_commit w) then [ERollback] else [])
    ++ [EClose].
Proof. each_world w; intros; try discriminate; reflexivity. Qed.

Lemma rollback_iff_db_error w :
  In ERollback (steps w) <-> body_outcome w = Raises DbError.
Proof. each_world w; close_case. Qed.

Lemma cursor_closed_last w :
  returns (w_cursor w) = true ->
  exists pre, steps w = pre ++ [EClose] /\ ~ In EClose pre.
Proof.
  each_world w; intros; try discriminate;
    match goal with
    | |- exists pre, ?l = _ /\ _ => exists (removelast l)
    end;
    (split; [reflexivity | cbn; intuition discriminate]).
Qed.

(** X1: when [conn.cursor()] itself raises, the name [cursor] is never
    assigned: nothing is closed, and the finally clause raises in its
    turn, so that the task ends in UnboundLocalError whatever the first
    exception was. *)
Lemma no_cursor_nothing_closed w :
  returns (w_cursor w) = false ->
  ~ In EClose (steps w) /\ fst (automated_task w) = Raises OtherError.
Proof. each_world w; intros; try discriminate; close_case. Qed.

(** X22: the task starts a transaction exactly when it has its cursor and
    none is active; when every step before the commit goes through it
    commits, and it then rolls back only if the commit itself raises a
    database error; it rolls back exactly when the try block ends in a
    database error; and a cursor that was obtained is closed once, as the
    last call of the run, however the run ends. *)
Theorem transaction_discipline w :
  (In EStartTransaction (steps w)
   <-> returns (w_cursor w) = true /\ w_in_transaction w = false)
  /\ (queries_ok w = true ->
      steps w
      = [ECursor]
        ++ (if w_in_transaction w then [] else [EStartTransaction])
        ++ [EExecute count_query; EFetchOne; EExecute status_query;
            EFetchOne; ECommit]
        ++ (if is_db_error (w_commit w) then [ERollback] else [])
        ++ [EClose])
  /\ (In ERollback (steps w) <-> body_outcome w = Raises DbError)
  /\ (returns (w_cursor w) = true ->
      exists pre, steps w = pre ++ [EClose] /\ ~ In EClose pre).
Proof.
  split; [apply start_only_when_idle|].
  split; [apply calls_when_queries_ok|].
  split; [apply rollback_iff_db_error|].
  apply cursor_closed_last.
Qed.

Lemma transaction_discipline_witness :
  In ERollback (steps failing_world)
  /\ exists pre, steps failing_world = pre ++ [EClose] /\ ~ In EClose pre.
Proof.
  destruct (transaction_discipline failing_world) as (_ & _ & Hrb & Hcl).
  split.
  - apply Hrb. reflexivity.
  - apply Hcl. reflexivity.
Defined.

(** C8 (the code departs from the claim): when [conn.cursor()] itself
    raises a database error, the task rolls back, and its finally clause
    then looks up the name [cursor], which was never assigned: no cursor
    is closed and the task ends in UnboundLocalError, where it is to
    release its cursor on every path and to recover from database
    errors. *)
Theorem cursor_failure_run :
  body_outcome cursor_failure_world = Raises DbError
  /\ steps cursor_failure_world = [ECursor; ERollback]
  /\ fst (automated_task cursor_failure_world) = Raises OtherError.
Proof. repeat split. Qed.

(** ** Text after a line break *)

Lemma find_where_eq prev s :
  find_where prev s
  = if where_here prev s then Some (take_while not_newline (skipn 5 s))
    else
      match s with
      | c :: s' => find_where (Some c) s'
      | [] => None
      end.
Proof. destruct s; reflexivity. Qed.

Lemma word_after_app_newline t b :
  word_after (t ++ newline :: b) = word_after t.
Proof. destruct t; reflexivity. Qed.

Lemma where_here_app prev s b :
  where_here prev (s ++ newline :: b) = where_here prev s.
Proof.
  unfold where_here.
  destruct s as [|c1 [|c2 [|c3 [|c4 [|c5 t]]]]]; cbn [app].
  - destruct b as [|b1 [|b2 [|b3 [|b4 b]]]]; try reflexivity.
    change (same_letter newline "W") with false.
    rewrite andb_false_r. reflexivity.
  - destruct b as [|b1 [|b2 [|b3 b]]]; try reflexivity.
    change (same_letter newline "H") with false.
    rewrite !andb_false_r. reflexivity.
  - destruct b as [|b1 [|b2 b]]; try reflexivity.
    change (same_letter newline "E") with false.
    rewrite !andb_false_r. reflexivity.
  - destruct b as [|b1 b]; try reflexivity.
    change (same_letter newline "R") with false.
    rewrite !andb_false_r. reflexivity.
  - change (same_letter newline "E") with false.
    rewrite !andb_false_r. reflexivity.
  - unfold at_boundary. rewrite word_after_app_newline. reflexivity.
Qed.

Lemma take_line_app x b :
  take_while not_newline (x ++ newline :: b) = take_while not_newline x.
Proof.
  induction x as [|c x IH]; simpl.
  - reflexivity.
  - destruct (not_newline c); congruence.
Qed.

Lemma where_here_length prev s : where_here prev s = true -> 5 <= length s.
Proof.
  unfold where_here.
  destruct s as [|c1 [|c2 [|c3 [|c4 [|c5 t]]]]]; try discriminate.
  intros _. simpl. lia.
Qed.

Lemma find_where_app a : forall prev b,
  find_where prev a <> None ->
  find_where prev (a ++ newline :: b) = find_where prev a.
Proof.
  induction a as [|c a IH]; intros prev b H.
  - exfalso. apply H. reflexivity.
  - rewrite find_where_eq in H. rewrite (find_where_eq prev (c :: a)).
    rewrite (find_where_eq prev ((c :: a) ++ newline :: b)).
    rewrite where_here_app.
    destruct (where_here prev (c :: a)) eqn:Hw.
    + apply where_here_length in Hw.
      rewrite skipn_app.
      replace (5 - length (c :: a)) with 0 by lia.
      cbn [skipn]. rewrite take_line_app. reflexivity.
    + cbn [app]. apply IH, H.
Qed.

Lemma search_found_iff query :
  re_search true where_re query <> None <-> find_where None query <> None.
Proof.
  unfold re_search. pose proof (search_where None query) as H.
  destruct (search_from true where_re None query), (find_where None query);
    simpl in H; try discriminate; split; intros; congruence.
Qed.

(** C9: when the search finds WHERE in [a], whatever follows a line break
    after [a] adds no column: the result is that of [a] alone. *)
Theorem text_after_newline_ignored a b :
  re_search true where_re a <> None ->
  extract_columns_from_where (a ++ newline :: b)
  = extract_columns_from_where a.
Proof.
  intros H. apply search_found_iff in H.
  rewrite !extract_is_direct. unfold extract_direct.
  rewrite find_where_app by exact H. reflexivity.
Qed.

Lemma text_after_newline_ignored_witness :
  extract_columns_from_where
    (lit "SELECT * FROM t WHERE a = 1" ++ newline :: lit "AND b = 2")
  = extract_columns_from_where (lit "SELECT * FROM t WHERE a = 1").
Proof.
  apply (text_after_newline_ignored (lit "SELECT * FROM t WHERE a = 1")
           (lit "AND b = 2")).
  vm_compute. discriminate.
Defined.

(** C3 (the code departs from the claim): the clause after WHERE holds the
    two predicates a = 1 and b = 2 joined by AND, the second one on a line
    of its own, and only the column a is returned: the pattern takes the
    clause with a dot, which stops at the line break, where the docstring
    speaks of the columns of the WHERE clause. *)
Lemma second_line_column_lost :
  extract_columns_from_where
    (lit "SELECT * FROM t WHERE a = 1" ++ newline :: lit "AND b = 2")
  = Ok [PStr (lit "a")].
Proof. vm_compute. reflexivity. Qed.

(** ** Whole words *)

Lemma lower_word c : is_word (lower c) = is_word c.
Proof. each_char c. Qed.

Lemma same_letter_word c x :
  same_letter c x = true -> is_word x = true -> is_word c = true.
Proof.
  unfold same_letter. intros H Hx. apply Ascii.eqb_eq in H.
  rewrite <- lower_word, H, lower_word. exact Hx.
Qed.

Lemma same_letter_lower c x : same_letter c x = true -> lower c = lower x.
Proof. unfold same_letter. apply Ascii.eqb_eq. Qed.

Lemma boundary_before_word prev c s :
  is_word c = true -> at_boundary prev (c :: s) = negb (word_before prev).
Proof.
  intros H. unfold at_boundary. simpl. rewrite H.
  destruct (word_before prev); reflexivity.
Qed.

Lemma boundary_after_word c s :
  is_word c = true -> at_boundary (Some c) s = negb (word_after s).
Proof.
  intros H. unfold at_boundary. simpl. rewrite H. reflexivity.
Qed.

Lemma take_word_nonword s : word_after s = false -> take_while is_word s = [].
Proof. destruct s as [|c s]; simpl; auto. intros ->. reflexivity. Qed.

Lemma where_here_word prev s :
  where_here prev s = true ->
  word_before prev = false /\ is_where (take_while is_word s) = true.
Proof.
  unfold where_here.
  destruct s as [|c1 [|c2 [|c3 [|c4 [|c5 t]]]]]; try discriminate.
  intros H. repeat (apply andb_true_iff in H as [H ?]).
  assert (W1 : is_word c1 = true) by (eapply same_letter_word; eauto).
  assert (W2 : is_word c2 = true) by (eapply same_letter_word; eauto).
  assert (W3 : is_word c3 = true) by (eapply same_letter_word; eauto).
  assert (W4 : is_word c4 = true) by (eapply same_letter_word; eauto).
  assert (W5 : is_word c5 = true) by (eapply same_letter_word; eauto).
  rewrite (boundary_before_word _ _ _ W1) in H.
  rewrite (boundary_after_word _ _ W5) in *.
  split; [destruct (word_before prev); auto; discriminate|].
  cbn [take_while]. rewrite W1, W2, W3, W4, W5.
  rewrite take_word_nonword by (destruct (word_after t); auto; discriminate).
  unfold is_where, str_lower. cbn [map].
  repeat match goal with
         | E : same_letter _ _ = true |- _ =>
             apply same_letter_lower in E; rewrite E; clear E
         end.
  reflexivity.
Qed.

Lemma kw_len_word prev s :
  kw_len prev s <> 0 ->
  word_before prev = false /\ is_and_or (take_while is_word s) = true.
Proof.
  unfold kw_len.
  destruct (and_here prev s) eqn:Ha.
  - intros _. unfold and_here in Ha.
    destruct s as [|c1 [|c2 [|c3 t]]]; try discriminate.
    repeat (apply andb_true_iff in Ha as [Ha ?]).
    assert (W1 : is_word c1 = true) by (eapply same_letter_word; eauto).
    assert (W2 : is_word c2 = true) by (eapply same_letter_word; eauto).
    assert (W3 : is_word c3 = true) by (eapply same_letter_word; eauto).
    rewrite (boundary_before_word _ _ _ W1) in Ha.
    rewrite (boundary_after_word _ _ W3) in *.
    split; [destruct (word_before prev); auto; discriminate|].
    cbn [take_while]. rewrite W1, W2, W3.
    rewrite take_word_nonword by (destruct (word_after t); auto; discriminate).
    unfold is_and_or, str_lower. cbn [map].
    repeat match goal with
           | E : same_letter _ _ = true |- _ =>
               apply same_letter_lower in E; rewrite E; clear E
           end.
    reflexivity.
  - destruct (or_here prev s) eqn:Ho; [|intros H; contradiction].
    intros _. unfold or_here in Ho.
    destruct s as [|c1 [|c2 t]]; try discriminate.
    repeat (apply andb_true_iff in Ho as [Ho ?]).
    assert (W1 : is_word c1 = true) by (eapply same_letter_word; eauto).
    assert (W2 : is_word c2 = true) by (eapply same_letter_word; eauto).
    rewrite (boundary_before_word _ _ _ W1) in Ho.
    rewrite (boundary_after_word _ _ W2) in *.
    split; [destruct (word_before prev); auto; discriminate|].
    cbn [take_while]. rewrite W1, W2.
    rewrite take_word_nonword by (destruct (word_after t); auto; discriminate).
    unfold is_and_or, str_lower. cbn [map].
    repeat match goal with
           | E : same_letter _ _ = true |- _ =>
               apply same_letter_lower in E; rewrite E; clear E
           end.
    reflexivity.
Qed.

Lemma lower_letter_word c x :
  lower c = x -> is_word x = true -> is_word c = true.
Proof. intros <- H. rewrite lower_word in H. exact H. Qed.

Lemma where_here_hit prev kw rest :
  word_before prev = false -> is_where kw = true -> word_after rest = false ->
  where_here prev (kw ++ rest) = true /\ skipn 5 (kw ++ rest) = rest.
Proof.
  intros Hp Hk Hr. unfold is_where, str_lower in Hk. apply str_eqb_eq in Hk.
  destruct kw as [|c1 [|c2 [|c3 [|c4 [|c5 [|]]]]]]; try discriminate.
  cbn [map lit list_ascii_of_string] in Hk.
  injection Hk as E1 E2 E3 E4 E5.
  split; [|reflexivity].
  cbn [app]. unfold where_here, same_letter.
  rewrite boundary_before_word by (eapply lower_letter_word; eauto).
  rewrite boundary_after_word by (eapply lower_letter_word; eauto).
  rewrite Hp, Hr, E1, E2, E3, E4, E5. reflexivity.
Qed.

Lemma kw_len_hit prev k rest :
  word_before prev = false -> is_and_or k = true -> word_after rest = false ->
  kw_len prev (k ++ rest) = length k /\ k <> [].
Proof.
  intros Hp Hk Hr. unfold is_and_or, str_lower in Hk.
  apply orb_true_iff in Hk as [Hk | Hk]; apply str_eqb_eq in Hk.
  - destruct k as [|c1 [|c2 [|c3 [|]]]]; try discriminate.
    cbn [map lit list_ascii_of_string] in Hk. injection Hk as E1 E2 E3.
    split; [|discriminate].
    cbn [app length]. unfold kw_len, and_here, same_letter.
    rewrite boundary_before_word by (eapply lower_letter_word; eauto).
    rewrite boundary_after_word by (eapply lower_letter_word; eauto).
    rewrite Hp, Hr, E1, E2, E3. reflexivity.
  - destruct k as [|c1 [|c2 [|]]]; try discriminate.
    cbn [map lit list_ascii_of_string] in Hk. injection Hk as E1 E2.
    split; [|discriminate].
    cbn [app length]. unfold kw_len.
    replace (and_here prev (c1 :: c2 :: rest)) with false.
    + unfold or_here, same_letter.
      rewrite boundary_before_word by (eapply lower_letter_word; eauto).
      rewrite boundary_after_word by (eapply lower_letter_word; eauto).
      rewrite Hp, Hr, E1, E2. reflexivity.
    + unfold and_here, same_letter. destruct rest as [|c3 t]; [reflexivity|].
      rewrite E1. cbn [Ascii.eqb]. rewrite andb_false_r. reflexivity.
Qed.

(** ** Scanning text without keywords *)

Lemma after_app prev x y : after prev (x ++ y) = after (after prev x) y.
Proof. revert prev. induction x as [|c x IH]; intros prev; simpl; auto. Qed.

Lemma after_nonempty p1 p2 x : x <> [] -> after p1 x = after p2 x.
Proof. destruct x; [contradiction | reflexivity]. Qed.

Lemma ends_nonword_tail c x :
  ends_nonword (c :: x) = true -> ends_nonword x = true.
Proof.
  unfold ends_nonword, last_char. destruct x as [|d x]; [reflexivity|].
  simpl. auto.
Qed.

Lemma take_word_app x rest :
  x <> [] -> ends_nonword x = true ->
  take_while is_word (x ++ rest) = take_while is_word x.
Proof.
  induction x as [|c x IH]; intros Hne He; [contradiction|].
  cbn [app take_while]. destruct (is_word c) eqn:Hc; [|reflexivity].
  destruct x as [|d x].
  - unfold ends_nonword, last_char in He. simpl in He. rewrite Hc in He.
    discriminate.
  - rewrite IH; [reflexivity | discriminate |].
    apply (ends_nonword_tail _ _ He).
Qed.

Lemma take_word_closed x rest :
  rest = [] \/ ends_nonword x = true ->
  x <> [] ->
  take_while is_word (x ++ rest) = take_while is_word x.
Proof.
  intros [-> | He] Hne.
  - rewrite app_nil_r. reflexivity.
  - apply take_word_app; assumption.
Qed.

Lemma no_word_weaken kw x : no_word kw false x = true -> forall b, no_word kw b x = true.
Proof.
  intros H b. destruct x as [|c x]; [reflexivity|].
  simpl in *. apply andb_true_iff in H as [H1 H2].
  rewrite H1, H2. destruct b; reflexivity.
Qed.

Lemma find_where_skip pre : forall prev rest,
  no_word is_where (word_before prev) pre = true ->
  rest = [] \/ ends_nonword pre = true ->
  find_where prev (pre ++ rest) = find_where (after prev pre) rest.
Proof.
  induction pre as [|c pre IH]; intros prev rest Hn Hc; [reflexivity|].
  rewrite find_where_eq.
  cbn [no_word] in Hn. apply andb_true_iff in Hn as [Hn1 Hn2].
  destruct (where_here prev ((c :: pre) ++ rest)) eqn:Hw.
  - exfalso. apply where_here_word in Hw as [Hp Hk].
    rewrite take_word_closed in Hk by (auto; discriminate).
    rewrite Hp, Hk in Hn1. discriminate.
  - cbn [app after]. apply IH; [exact Hn2|].
    destruct Hc as [-> | He]; [left; reflexivity | right].
    apply (ends_nonword_tail _ _ He).
Qed.

Lemma split_kw_piece x : forall prev rest acc,
  no_word is_and_or (word_before prev) x = true ->
  rest = [] \/ ends_nonword x = true ->
  split_kw prev (x ++ rest) 0 acc = split_kw (after prev x) rest 0 (rev x ++ acc).
Proof.
  induction x as [|c x IH]; intros prev rest acc Hn Hc; [reflexivity|].
  cbn [no_word] in Hn. apply andb_true_iff in Hn as [Hn1 Hn2].
  cbn [app split_kw].
  destruct (kw_len prev (c :: x ++ rest)) eqn:Hk.
  - cbn [after rev]. rewrite <- app_assoc. cbn [app]. apply IH; [exact Hn2|].
    destruct Hc as [-> | He]; [left; reflexivity | right].
    apply (ends_nonword_tail _ _ He).
  - exfalso.
    assert (Hne : kw_len prev ((c :: x) ++ rest) <> 0)
      by (cbn [app]; rewrite Hk; discriminate).
    apply kw_len_word in Hne as [Hp Hw].
    rewrite take_word_closed in Hw by (auto; discriminate).
    rewrite Hp, Hw in Hn1. discriminate.
Qed.

Lemma split_kw_skip x : forall prev rest acc,
  split_kw prev (x ++ rest) (length x) acc = split_kw (after prev x) rest 0 acc.
Proof.
  induction x as [|c x IH]; intros prev rest acc; [reflexivity|].
  cbn [app length split_kw after]. apply IH.
Qed.

Lemma split_kw_connective prev k rest acc :
  word_before prev = false -> is_and_or k = true -> word_after rest = false ->
  split_kw prev (k ++ rest) 0 acc
  = rev acc :: split_kw (after prev k) rest 0 [].
Proof.
  intros Hp Hk Hr.
  destruct (kw_len_hit prev k rest Hp Hk Hr) as [Hlen Hne].
  destruct k as [|c k]; [contradiction|].
  cbn [app split_kw]. cbn [app] in Hlen. rewrite Hlen. cbn [length after].
  rewrite split_kw_skip. reflexivity.
Qed.

(** ** One predicate *)

Lemma ident_start_not_space c : ident_start c = true -> is_space c = false.
Proof. each_char c. Qed.

Lemma op_char_not_ident c : is_op_char c = true -> ident_char c = false.
Proof. each_char c. Qed.

Lemma space_not_ident_char c : is_space c = true -> ident_char c = false.
Proof. each_char c. Qed.

Lemma op_char_one_line c : is_op_char c = true -> not_newline c = true.
Proof. each_char c. Qed.

Lemma ident_char_one_line c : ident_char c = true -> not_newline c = true.
Proof. each_char c. Qed.

Lemma ident_start_char c : ident_start c = true -> ident_char c = true.
Proof. each_char c. Qed.

Lemma lower_one_line c x :
  lower c = x -> is_word x = true -> not_newline c = true.
Proof. intros <-. each_char c. Qed.

Lemma drop_while_all p (x y : str) :
  forallb p x = true -> drop_while p (x ++ y) = drop_while p y.
Proof.
  induction x as [|c x IH]; simpl; auto.
  intros H. apply andb_true_iff in H as [Hc Hx]. rewrite Hc. auto.
Qed.

Lemma take_while_all p (x y : str) :
  forallb p x = true -> take_while p (x ++ y) = x ++ take_while p y.
Proof.
  induction x as [|c x IH]; simpl; auto.
  intros H. apply andb_true_iff in H as [Hc Hx]. rewrite Hc, IH; auto.
Qed.

Lemma take_while_whole p (x : str) : forallb p x = true -> take_while p x = x.
Proof.
  intros H. rewrite <- (app_nil_r x) at 1.
  rewrite take_while_all by exact H. apply app_nil_r.
Qed.

Lemma blank_spaces x : blank x = true -> forallb is_space x = true.
Proof.
  unfold blank. induction x as [|c x IH]; simpl; auto.
  intros H. apply andb_true_iff in H as [Hc Hx].
  apply andb_true_iff in Hc as [Hc _]. rewrite Hc. auto.
Qed.

Lemma blank_one_line x : blank x = true -> one_line x = true.
Proof.
  unfold blank, one_line. induction x as [|c x IH]; simpl; auto.
  intros H. apply andb_true_iff in H as [Hc Hx].
  apply andb_true_iff in Hc as [_ Hc]. rewrite Hc. auto.
Qed.

Lemma lstrip_app x c y :
  is_space c = false -> lstrip (x ++ c :: y) = lstrip x ++ c :: y.
Proof.
  intros Hc. induction x as [|d x IH]; simpl.
  - rewrite Hc. reflexivity.
  - destruct (is_space d); auto.
Qed.

Lemma lstrip_all x : forallb is_space x = true -> lstrip x = [].
Proof.
  induction x as [|c x IH]; simpl; auto.
  intros H. apply andb_true_iff in H as [Hc Hx]. rewrite Hc. auto.
Qed.

Lemma rstrip_keep a c b :
  is_space c = false -> rstrip (a ++ c :: b) = a ++ c :: rstrip b.
Proof.
  intros Hc. unfold rstrip.
  rewrite rev_app_distr. cbn [rev]. rewrite <- app_assoc. cbn [app].
  rewrite lstrip_app by exact Hc.
  rewrite rev_app_distr. cbn [rev]. rewrite rev_involutive.
  rewrite <- app_assoc. reflexivity.
Qed.

Lemma operator_first o :
  is_operator o = true ->
  exists c tl, o = c :: tl /\ is_op_char c = true /\ one_line o = true.
Proof.
  unfold is_operator, operators. cbn [existsb]. intros H.
  repeat (apply orb_true_iff in H as [H | H]);
    try discriminate;
    apply str_eqb_eq in H; subst o; cbn [lit list_ascii_of_string];
    eexists; eexists; repeat split; reflexivity.
Qed.

Lemma scan_col_found c cs gap o tl :
  ident_start c = true -> forallb ident_char cs = true ->
  forallb is_space gap = true -> is_op_char o = true ->
  scan_col (c :: cs ++ gap ++ o :: tl) = Some (c :: cs).
Proof.
  intros Hc Hcs Hgap Ho. unfold scan_col. cbn [drop_while].
  rewrite (ident_start_not_space _ Hc), Hc.
  assert (Hstop : drop_while ident_char (gap ++ o :: tl) = gap ++ o :: tl
                  /\ take_while ident_char (gap ++ o :: tl) = []).
  { destruct gap as [|g gap]; cbn [app drop_while take_while].
    - rewrite (op_char_not_ident _ Ho). auto.
    - simpl in Hgap. apply andb_true_iff in Hgap as [Hg _].
      rewrite (space_not_ident_char _ Hg). auto. }
  destruct Hstop as [Hd Ht].
  rewrite drop_while_all, Hd by exact Hcs.
  rewrite drop_while_all by exact Hgap. cbn [drop_while].
  rewrite (op_char_not_space _ Ho), Ho.
  rewrite take_while_all, Ht, app_nil_r by exact Hcs. reflexivity.
Qed.

(** The parts of a simple predicate *)
Lemma simple_parts p :
  simple p = true ->
  exists l ls c cs o tl,
    p_lead p = l :: ls /\ forallb is_space (l :: ls) = true
    /\ p_col p = c :: cs /\ ident_start c = true
    /\ forallb ident_char cs = true
    /\ forallb is_space (p_gap p) = true
    /\ p_op p = o :: tl /\ is_op_char o = true
    /\ one_line (pred_text p) = true
    /\ no_word is_and_or false (pred_text p) = true.
Proof.
  unfold simple. intros H.
  apply andb_true_iff in H as [H Hn].
  apply andb_true_iff in H as [H Hr].
  apply andb_true_iff in H as [H Hop].
  apply andb_true_iff in H as [H Hg].
  apply andb_true_iff in H as [H Hi].
  apply andb_true_iff in H as [H Hl].
  destruct (p_lead p) as [|l ls] eqn:El; [discriminate|].
  destruct (p_col p) as [|c cs] eqn:Ec; [discriminate|].
  simpl in Hi. apply andb_true_iff in Hi as [Hc Hcs].
  destruct (operator_first _ Hop) as (o & tl & Eo & Hoc & Hol).
  assert (Lc : one_line (c :: cs) = true).
  { unfold one_line. cbn [forallb].
    rewrite (ident_char_one_line _ (ident_start_char _ Hc)). cbn [andb].
    clear - Hcs. induction cs as [|a cs IH]; simpl in *; auto.
    apply andb_true_iff in Hcs as [Ha Hcs].
    rewrite (ident_char_one_line _ Ha). auto. }
  pose proof (blank_one_line _ Hl) as Ll.
  pose proof (blank_one_line _ Hg) as Lg.
  exists l, ls, c, cs, o, tl.
  repeat split; auto using blank_spaces.
  unfold pred_text. rewrite El, Ec.
  unfold one_line in *. rewrite !forallb_app, Ll, Lc, Lg, Hol, Hr.
  reflexivity.
Qed.

Lemma part_column_simple p :
  simple p = true -> part_column (pred_text p) = [p_col p].
Proof.
  intros H.
  destruct (simple_parts p H)
    as (l & ls & c & cs & o & tl & El & Hl & Ec & Hc & Hcs & Hg & Eo & Ho & _).
  unfold part_column, pred_text, strip. rewrite El, Ec, Eo.
  replace ((l :: ls) ++ (c :: cs) ++ p_gap p ++ (o :: tl) ++ p_rest p)
    with ((l :: ls) ++ c :: (cs ++ p_gap p ++ o :: tl ++ p_rest p))
    by reflexivity.
  rewrite lstrip_app by (apply ident_start_not_space, Hc).
  rewrite lstrip_all by exact Hl. cbn [app].
  replace (c :: cs ++ p_gap p ++ o :: tl ++ p_rest p)
    with ((c :: cs ++ p_gap p) ++ o :: tl ++ p_rest p)
    by (cbn [app]; rewrite <- app_assoc; reflexivity).
  rewrite rstrip_keep by (apply op_char_not_space, Ho).
  cbn [app]. rewrite <- app_assoc.
  rewrite scan_col_found by assumption. reflexivity.
Qed.

Lemma simple_starts_nonword p rest :
  simple p = true -> word_after (pred_text p ++ rest) = false.
Proof.
  intros H.
  destruct (simple_parts p H) as (l & ls & c & cs & o & tl & El & Hl & _).
  unfold pred_text. rewrite El. cbn [app word_after].
  simpl in Hl. apply andb_true_iff in Hl as [Hl _].
  apply space_not_word, Hl.
Qed.

Lemma simple_nonempty p : simple p = true -> pred_text p <> [].
Proof.
  intros H.
  destruct (simple_parts p H) as (l & ls & c & cs & o & tl & El & _).
  unfold pred_text. rewrite El. discriminate.
Qed.

(** ** A clause of simple predicates *)

Lemma and_or_one_line k : is_and_or k = true -> one_line k = true.
Proof.
  unfold is_and_or, str_lower. intros H.
  apply orb_true_iff in H as [H | H]; apply str_eqb_eq in H.
  - destruct k as [|c1 [|c2 [|c3 [|]]]]; try discriminate.
    cbn [map lit list_ascii_of_string] in H. injection H as E1 E2 E3.
    unfold one_line. cbn [forallb].
    rewrite (lower_one_line _ _ E1), (lower_one_line _ _ E2),
      (lower_one_line _ _ E3); reflexivity.
  - destruct k as [|c1 [|c2 [|]]]; try discriminate.
    cbn [map lit list_ascii_of_string] in H. injection H as E1 E2.
    unfold one_line. cbn [forallb].
    rewrite (lower_one_line _ _ E1), (lower_one_line _ _ E2); reflexivity.
Qed.

Lemma and_or_ends_word prev k :
  is_and_or k = true -> k <> [] /\ word_before (after prev k) = true.
Proof.
  unfold is_and_or, str_lower. intros H.
  apply orb_true_iff in H as [H | H]; apply str_eqb_eq in H.
  - destruct k as [|c1 [|c2 [|c3 [|]]]]; try discriminate.
    cbn [map lit list_ascii_of_string] in H. injection H as E1 E2 E3.
    split; [discriminate|]. simpl.
    eapply lower_letter_word; eauto.
  - destruct k as [|c1 [|c2 [|]]]; try discriminate.
    cbn [map lit list_ascii_of_string] in H. injection H as E1 E2.
    split; [discriminate|]. simpl.
    eapply lower_letter_word; eauto.
Qed.

Lemma one_line_app x y : one_line (x ++ y) = one_line x && one_line y.
Proof. apply forallb_app. Qed.

Lemma clause_one_line more : forall p,
  simple_clause p more = true -> one_line (clause_text p more) = true.
Proof.
  induction more as [|[k p'] more IH]; intros p H; cbn [simple_clause] in H.
  - destruct (simple_parts p H) as (l & ls & c & cs & o & tl & H').
    apply H'.
  - apply andb_true_iff in H as [H Hm].
    apply andb_true_iff in H as [H Hk].
    apply andb_true_iff in H as [Hp He].
    destruct (simple_parts p Hp) as (l & ls & c & cs & o & tl & H').
    cbn [clause_text]. rewrite !one_line_app.
    rewrite (and_or_one_line _ Hk), (IH _ Hm).
    replace (one_line (pred_text p)) with true by (symmetry; apply H').
    reflexivity.
Qed.

Lemma clause_starts_nonword p more :
  simple_clause p more = true -> word_after (clause_text p more) = false.
Proof.
  destruct more as [|[k p'] more]; cbn [simple_clause clause_text]; intros H.
  - rewrite <- (app_nil_r (pred_text p)).
    apply simple_starts_nonword, H.
  - apply andb_true_iff in H as [H _].
    apply andb_true_iff in H as [H _].
    apply andb_true_iff in H as [Hp _].
    apply simple_starts_nonword, Hp.
Qed.

Lemma split_clause more : forall p prev,
  simple_clause p more = true ->
  split_kw prev (clause_text p more) 0 []
  = pred_text p :: map (fun kp => pred_text (snd kp)) more.
Proof.
  induction more as [|[k p'] more IH]; intros p prev H;
    cbn [simple_clause] in H.
  - cbn [clause_text map].
    destruct (simple_parts p H) as (l & ls & c & cs & o & tl & H').
    rewrite <- (app_nil_r (pred_text p)) at 1.
    rewrite split_kw_piece; [| apply no_word_weaken, H' | left; reflexivity].
    cbn [split_kw]. rewrite app_nil_r, rev_involutive. reflexivity.
  - apply andb_true_iff in H as [H Hm].
    apply andb_true_iff in H as [H Hk].
    apply andb_true_iff in H as [Hp He].
    destruct (simple_parts p Hp) as (l & ls & c & cs & o & tl & H').
    cbn [clause_text map snd].
    rewrite split_kw_piece; [| apply no_word_weaken, H' | right; exact He].
    rewrite split_kw_connective.
    + rewrite app_nil_r, rev_involutive, IH by exact Hm. reflexivity.
    + rewrite (after_nonempty prev None) by (apply simple_nonempty, Hp).
      unfold ends_nonword, last_char in He.
      destruct (word_before (after None (pred_text p))); auto; discriminate.
    + exact Hk.
    + apply clause_starts_nonword, Hm.
Qed.

Lemma columns_of_clause more : forall p,
  simple_clause p more = true ->
  columns_of (pred_text p :: map (fun kp => pred_text (snd kp)) more)
  = clause_columns p more.
Proof.
  unfold columns_of, clause_columns.
  induction more as [|[k p'] more IH]; intros p H; cbn [simple_clause] in H.
  - cbn [map flat_map]. rewrite part_column_simple by exact H. reflexivity.
  - apply andb_true_iff in H as [H Hm].
    apply andb_true_iff in H as [H Hk].
    apply andb_true_iff in H as [Hp He].
    cbn [map flat_map snd]. rewrite part_column_simple by exact Hp.
    cbn [app]. f_equal. apply (IH p' Hm).
Qed.

Lemma find_where_none q :
  no_word is_where false q = true -> find_where None q = None.
Proof.
  intros H. rewrite <- (app_nil_r q).
  rewrite find_where_skip; [| exact H | left; reflexivity].
  reflexivity.
Qed.

Lemma find_where_clause pre kw p more :
  no_word is_where false pre = true ->
  ends_nonword pre = true ->
  is_where kw = true ->
  simple_clause p more = true ->
  find_where None (pre ++ kw ++ clause_text p more)
  = Some (clause_text p more).
Proof.
  intros Hpre He Hk Hc.
  rewrite find_where_skip; [| exact Hpre | right; exact He].
  rewrite find_where_eq.
  destruct (where_here_hit (after None pre) kw (clause_text p more))
    as [Hw Hs]; auto.
  - unfold ends_nonword, last_char in He.
    destruct (word_before (after None pre)); auto; discriminate.
  - apply clause_starts_nonword, Hc.
  - rewrite Hw, Hs. f_equal. apply take_while_whole.
    apply (clause_one_line _ _ Hc).
Qed.

(** X21: when the text before the first whole word WHERE holds no such
    word, and the clause behind it stands on that line and is made of
    predicates, each one white space, an identifier, optional white space,
    one of the five operators and a rest, joined by whole words AND or OR
    and holding no other word AND or OR, the extractor returns the
    identifiers from left to right, duplicates included; and when no whole
    word of the query is WHERE it returns the empty list. *)
Theorem simple_clause_columns :
  (forall pre kw p more,
      no_word is_where false pre = true ->
      ends_nonword pre = true ->
      is_where kw = true ->
      simple_clause p more = true ->
      extract_columns_from_where (pre ++ kw ++ clause_text p more)
      = Ok (map PStr (clause_columns p more)))
  /\ (forall query,
        no_word is_where false query = true ->
        extract_columns_from_where query = Ok []).
Proof.
  split.
  - intros pre kw p more Hpre He Hk Hc.
    rewrite extract_is_direct. unfold extract_direct.
    rewrite find_where_clause by assumption.
    rewrite split_clause, columns_of_clause by exact Hc. reflexivity.
  - intros query H. rewrite extract_is_direct. unfold extract_direct.
    rewrite find_where_none by exact H. reflexivity.
Qed.

Lemma simple_clause_columns_witness :
  extract_columns_from_where
    (lit "SELECT * FROM orders WHERE customer_id = 5 AND total >= 10 or customer_id<3;")
  = Ok [PStr (lit "customer_id"); PStr (lit "total"); PStr (lit "customer_id")]
  /\ extract_columns_from_where (lit "SELECT * FROM somewhere") = Ok [].
Proof.
  destruct simple_clause_columns as [Hclause Hnone].
  split.
  - apply (Hclause (lit "SELECT * FROM orders ") (lit "WHERE") by_customer
             [(lit "AND", by_total); (lit "or", by_customer_below)]);
      reflexivity.
  - apply (Hnone (lit "SELECT * FROM somewhere")). reflexivity.
Defined.

(** ** The periodic task: further behaviour *)

(** X2: the task returns normally exactly when it got its cursor, the cursor
    closes, and the try block either goes through or ends in a database
    error whose rollback goes through: a database error never leaves the
    task when rollback and close succeed. *)
Theorem task_returns_iff w :
  fst (automated_task w) = Returns tt
  <-> returns (w_cursor w) = true
      /\ returns (w_close w) = true
      /\ (body_outcome w = Returns tt
          \/ (body_outcome w = Raises DbError
              /\ returns (w_rollback w) = true)).
Proof.
  each_world w;
    repeat match goal with u : unit |- _ => destruct u end;
    split; intros H; try discriminate; try reflexivity;
    try (intuition (try discriminate; auto); fail).
Qed.

(** X3: a commit and a rollback in one run mean that the commit itself raised
    a database error: a commit that went through is never rolled back. *)
Theorem commit_and_rollback w :
  In ECommit (steps w) -> In ERollback (steps w) ->
  w_commit w = Raises DbError.
Proof.
  each_world w; intros H1 H2; try reflexivity;
    try (exfalso; cbn in *; intuition discriminate).
Qed.

Lemma commit_and_rollback_witness :
  w_commit
    {| w_cursor := Returns tt; w_in_transaction := true;
       w_start_transaction := Returns tt; w_execute_count := Returns tt;
       w_fetch_count := Returns (Some [PInt 3]);
       w_execute_status := Returns tt; w_fetch_status := Returns None;
       w_commit := Raises DbError; w_rollback := Returns tt;
       w_close := Returns tt |} = Raises DbError.
Proof.
  apply commit_and_rollback; vm_compute; auto 10.
Defined.

(** X4: the task executes nothing but its two queries, and the status query
    only after the count query gave a row. *)
Theorem only_diagnostic_queries w q :
  In (EExecute q) (steps w) ->
  q = count_query
  \/ (q = status_query /\ fetch_count_ok (w_fetch_count w) = true).
Proof.
  each_world w; intros H; cbn in H;
    repeat match goal with
           | H : _ \/ _ |- _ => destruct H as [H | H]
           | H : False |- _ => contradiction
           | H : EExecute _ = EExecute _ |- _ => injection H as <-
           | H : _ = EExecute _ |- _ => discriminate H
           end; auto.
Qed.

Lemma only_diagnostic_queries_witness :
  status_query = count_query
  \/ (status_query = status_query
      /\ fetch_count_ok (Returns (Some [PInt 3])) = true).
Proof.
  apply (only_diagnostic_queries
           {| w_cursor := Returns tt; w_in_transaction := true;
              w_start_transaction := Returns tt;
              w_execute_count := Returns tt;
              w_fetch_count := Returns (Some [PInt 3]);
              w_execute_status := Returns tt;
              w_fetch_status := Returns None;
              w_commit := Returns tt; w_rollback := Returns tt;
              w_close := Returns tt |} status_query).
  vm_compute. auto 10.
Defined.

(** X5: an exception of the try block that is no database error is not
    handled: the task raises, rolls nothing back, and has committed
    nothing, so that a transaction it started stays open. *)
Theorem other_error_escapes w :
  body_outcome w = Raises OtherError ->
  (exists e, fst (automated_task w) = Raises e)
  /\ ~ In ERollback (steps w)
  /\ (In ECommit (steps w) -> w_commit w = Raises OtherError).
Proof.
  each_world w; intros H; try discriminate;
    (split; [eexists; reflexivity|]);
    (split; [cbn; intuition discriminate|]);
    intros H'; try reflexivity; exfalso; cbn in H'; intuition discriminate.
Qed.

Lemma other_error_escapes_witness :
  (exists e,
      fst (automated_task
             {| w_cursor := Returns tt; w_in_transaction := false;
                w_start_transaction := Returns tt;
                w_execute_count := Returns tt;
                w_fetch_count := Returns None;
                w_execute_status := Returns tt;
                w_fetch_status := Returns None;
                w_commit := Returns tt; w_rollback := Returns tt;
                w_close := Returns tt |}) = Raises e)
  /\ ~ In ERollback
         (steps
            {| w_cursor := Returns tt; w_in_transaction := false;
               w_start_transaction := Returns tt;
               w_execute_count := Returns tt;
               w_fetch_count := Returns None;
               w_execute_status := Returns tt;
               w_fetch_status := Returns None;
               w_commit := Returns tt; w_rollback := Returns tt;
               w_close := Returns tt |})
  /\ (In ECommit
        (steps
           {| w_cursor := Returns tt; w_in_transaction := false;
              w_start_transaction := Returns tt;
              w_execute_count := Returns tt;
              w_fetch_count := Returns None;
              w_execute_status := Returns tt;
              w_fetch_status := Returns None;
              w_commit := Returns tt; w_rollback := Returns tt;
              w_close := Returns tt |}) ->
      Returns tt = Raises OtherError).
Proof.
  apply (other_error_escapes
           {| w_cursor := Returns tt; w_in_transaction := false;
              w_start_transaction := Returns tt;
              w_execute_count := Returns tt;
              w_fetch_count := Returns None;
              w_execute_status := Returns tt;
              w_fetch_status := Returns None;
              w_commit := Returns tt; w_rollback := Returns tt;
              w_close := Returns tt |}).
  reflexivity.
Defined.

Lemma no_cursor_nothing_closed_witness :
  ~ In EClose
      (steps
         {| w_cursor := Raises DbError; w_in_transaction := false;
            w_start_transaction := Returns tt;
            w_execute_count := Returns tt;
            w_fetch_count := Returns None;
            w_execute_status := Returns tt;
            w_fetch_status := Returns None;
            w_commit := Returns tt; w_rollback := Returns tt;
            w_close := Returns tt |})
  /\ fst (automated_task
            {| w_cursor := Raises DbError; w_in_transaction := false;
               w_start_transaction := Returns tt;
               w_execute_count := Returns tt;
               w_fetch_count := Returns None;
               w_execute_status := Returns tt;
               w_fetch_status := Returns None;
               w_commit := Returns tt; w_rollback := Returns tt;
               w_close := Returns tt |}) = Raises OtherError.
Proof.
  apply (no_cursor_nothing_closed
           {| w_cursor := Raises DbError; w_in_transaction := false;
              w_start_transaction := Returns tt;
              w_execute_count := Returns tt;
              w_fetch_count := Returns None;
              w_execute_status := Returns tt;
              w_fetch_status := Returns None;
              w_commit := Returns tt; w_rollback := Returns tt;
              w_close := Returns tt |}).
  reflexivity.
Defined.

(** ** The analyzer: further behaviour *)

Lemma analyze_rows_get cols t plan : forall d d',
  analyze_rows (map PStr cols) d plan = Ok d' ->
  dict_get t d'
  = if flagged plan t then Some (suggestion_text cols t) else dict_get t d.
Proof.
  unfold flagged.
  induction plan as [|r plan IH]; intros d d' H; simpl in H.
  - injection H as <-. reflexivity.
  - destruct (analyze_row (map PStr cols) d r) as [d1|] eqn:E;
      simpl in H; [|discriminate].
    rewrite (IH _ _ H). cbn [existsb].
    rewrite analyze_row_ok in E by (eapply analyze_row_raises_not_ok; eauto).
    destruct (full_scan_without_index r); cbn [andb orb].
    + injection E as <-.
      destruct (pyval_eqb (row_table r) t) eqn:Et; cbn [orb].
      * apply pyval_eqb_eq in Et. subst t.
        rewrite dict_get_set_same. destruct (existsb _ plan); reflexivity.
      * rewrite dict_get_set_other; [reflexivity|].
        intros Heq. rewrite Heq, pyval_eqb_refl in Et. discriminate.
    + injection E as <-. reflexivity.
Qed.

Lemma flagged_iff plan t :
  flagged plan t = true
  <-> exists r, In r plan /\ full_scan_without_index r = true
                /\ row_table r = t.
Proof.
  unfold flagged. rewrite existsb_exists. split.
  - intros (r & Hin & H). apply andb_true_iff in H as [Hf Ht].
    apply pyval_eqb_eq in Ht. eauto.
  - intros (r & Hin & Hf & Ht). exists r. split; [exact Hin|].
    rewrite Hf, Ht, pyval_eqb_refl. reflexivity.
Qed.

Lemma full_scan_fields r :
  full_scan_without_index r = true
  <-> exists id_val select_type table type_val possible_keys key key_len ref
        rows extra,
        r = [id_val; select_type; table; PStr type_val; possible_keys; key;
             key_len; ref; rows; extra]
        /\ str_upper type_val = wide (lit "ALL")
        /\ (possible_keys = PNone \/ key = PNone).
Proof.
  split.
  - intros H. pose proof (full_scan_row_ok _ H) as Hok.
    unfold row_ok in Hok. destruct_row r f3 type_val.
    unfold full_scan_without_index in H.
    apply andb_true_iff in H as [Hall Hnone].
    apply wstr_eqb_eq in Hall.
    do 10 eexists. split; [reflexivity|]. split; [exact Hall|].
    apply orb_true_iff in Hnone as [Hn | Hn];
      [left | right];
      match type of Hn with
      | is_none ?v = true => destruct v; try discriminate; reflexivity
      end.
  - intros (id_val & select_type & table & type_val & possible_keys & key
            & key_len & ref & rows & extra & -> & Hall & Hnone).
    unfold full_scan_without_index. rewrite Hall, wstr_eqb_refl.
    destruct Hnone as [-> | ->]; simpl; auto. apply orb_true_r.
Qed.

(** C1 (amended): for every plan whose rows have their ten fields and a
    string as access type, and every query, the call returns a mapping,
    and a table has an entry in it if and only if some row of the plan for
    that table has an access type that is ALL once put in upper case and
    has None as possible_keys or None as key.  A possible_keys that is
    empty without being None does not count, and the rows that do not meet
    the condition add nothing and raise nothing. *)
Theorem full_scan_rule plan query :
  forallb row_ok plan = true ->
  exists cols d,
    extract_columns_from_where query = Ok (map PStr cols)
    /\ analyze_plan_and_suggest plan query = Ok d
    /\ forall t,
         dict_get t d <> None
         <-> exists id_val select_type type_val possible_keys key key_len
               ref rows extra,
               In [id_val; select_type; t; PStr type_val; possible_keys;
                   key; key_len; ref; rows; extra] plan
               /\ str_upper type_val = wide (lit "ALL")
               /\ (possible_keys = PNone \/ key = PNone).
Proof.
  intros Hok.
  destruct (analyze_rows_total (extract_direct query) plan [] Hok) as [d Hd].
  exists (extract_direct query), d.
  split; [apply extract_is_direct|].
  split; [rewrite analyze_direct; exact Hd|].
  intros t. rewrite (analyze_rows_get _ t _ _ _ Hd). cbn [dict_get].
  split.
  - intros H. destruct (flagged plan t) eqn:E; [|contradiction].
    apply flagged_iff in E as (r & Hin & Hr & Ht).
    apply full_scan_fields in Hr
      as (id_val & select_type & table & type_val & possible_keys & key
          & key_len & ref & rows & extra & -> & Hall & Hnone).
    cbn [row_table nth] in Ht. subst table.
    exists id_val, select_type, type_val, possible_keys, key, key_len, ref,
      rows, extra. auto.
  - intros (id_val & select_type & type_val & possible_keys & key & key_len
            & ref & rows & extra & Hin & Hall & Hnone).
    replace (flagged plan t) with true; [discriminate|].
    symmetry. apply flagged_iff. eexists. split; [exact Hin|].
    split; [|reflexivity].
    apply full_scan_fields. do 10 eexists. split; [reflexivity|]. auto.
Qed.

Lemma full_scan_rule_witness :
  exists cols d,
    extract_columns_from_where orders_query = Ok (map PStr cols)
    /\ analyze_plan_and_suggest
         [plan_row (PStr (lit "customers")) (PStr (lit "ref")) PNone PNone;
          plan_row (PStr (lit "orders")) (PStr (lit "all")) PNone
            (PStr (lit "idx_customer"));
          plan_row (PStr (lit "items")) (PStr (lit "ALL")) (PStr [])
            (PStr (lit "idx_item"))]
         orders_query = Ok d
    /\ forall t,
         dict_get t d <> None
         <-> exists id_val select_type type_val possible_keys key key_len
               ref rows extra,
               In [id_val; select_type; t; PStr type_val; possible_keys;
                   key; key_len; ref; rows; extra]
                 [plan_row (PStr (lit "customers")) (PStr (lit "ref")) PNone
                    PNone;
                  plan_row (PStr (lit "orders")) (PStr (lit "all")) PNone
                    (PStr (lit "idx_customer"));
                  plan_row (PStr (lit "items")) (PStr (lit "ALL")) (PStr [])
                    (PStr (lit "idx_item"))]
               /\ str_upper type_val = wide (lit "ALL")
               /\ (possible_keys = PNone \/ key = PNone).
Proof.
  apply (full_scan_rule
           [plan_row (PStr (lit "customers")) (PStr (lit "ref")) PNone PNone;
            plan_row (PStr (lit "orders")) (PStr (lit "all")) PNone
              (PStr (lit "idx_customer"));
            plan_row (PStr (lit "items")) (PStr (lit "ALL")) (PStr [])
              (PStr (lit "idx_item"))]
           orders_query).
  reflexivity.
Defined.

(** The mapping of the plan above: the full scan of orders alone *)
Example full_scan_rule_run :
  analyze_plan_and_suggest
    [plan_row (PStr (lit "customers")) (PStr (lit "ref")) PNone PNone;
     plan_row (PStr (lit "orders")) (PStr (lit "all")) PNone
       (PStr (lit "idx_customer"));
     plan_row (PStr (lit "items")) (PStr (lit "ALL")) (PStr [])
       (PStr (lit "idx_item"))]
    orders_query
  = Ok [(PStr (lit "orders"),
         lit "Consider adding an index on table 'orders' for columns: customer_id.")].
Proof. vm_compute. reflexivity. Qed.

(** X6: the returned mapping, entry by entry: a table has an entry exactly
    when some row of the plan meets the condition for it, and the entry is
    the text of that table for the columns of the query.  No other key and
    no other text is ever in the mapping. *)
Theorem suggestion_mapping plan query d :
  analyze_plan_and_suggest plan query = Ok d ->
  exists cols,
    extract_columns_from_where query = Ok (map PStr cols)
    /\ forall t v,
         dict_get t d = Some v
         <-> v = suggestion_text cols t
             /\ exists r, In r plan /\ full_scan_without_index r = true
                          /\ row_table r = t.
Proof.
  intros H. exists (extract_direct query).
  split; [apply extract_is_direct|].
  rewrite analyze_direct in H. intros t v.
  rewrite (analyze_rows_get _ t _ _ _ H). cbn [dict_get].
  rewrite <- flagged_iff.
  destruct (flagged plan t); split.
  - intros E. injection E as <-. auto.
  - intros [-> _]. reflexivity.
  - discriminate.
  - intros [_ E]. discriminate.
Qed.

Lemma suggestion_mapping_witness :
  exists cols,
    extract_columns_from_where orders_query = Ok (map PStr cols)
    /\ forall t v,
         dict_get t
           [(PStr (lit "orders"),
             lit "Consider adding an index on table 'orders' for columns: customer_id.")]
         = Some v
         <-> v = suggestion_text cols t
             /\ exists r,
                  In r [plan_row (PStr (lit "orders")) (PStr (lit "ALL"))
                          PNone PNone;
                        plan_row (PStr (lit "customers")) (PStr (lit "ref"))
                          PNone PNone]
                  /\ full_scan_without_index r = true
                  /\ row_table r = t.
Proof.
  apply (suggestion_mapping
           [plan_row (PStr (lit "orders")) (PStr (lit "ALL")) PNone PNone;
            plan_row (PStr (lit "customers")) (PStr (lit "ref")) PNone PNone]
           orders_query).
  vm_compute. reflexivity.
Defined.

Lemma analyze_rows_all_ok cols plan : forall d d',
  analyze_rows cols d plan = Ok d' -> forallb row_ok plan = true.
Proof.
  induction plan as [|r plan IH]; intros d d' H; simpl in *; auto.
  destruct (analyze_row cols d r) as [d1|] eqn:E; simpl in H; [|discriminate].
  rewrite (analyze_row_raises_not_ok _ _ _ _ E). simpl. eapply IH; eauto.
Qed.

Lemma row_ok_permutation plan plan' :
  Permutation plan plan' ->
  forallb row_ok plan = true -> forallb row_ok plan' = true.
Proof.
  intros Hp H. rewrite forallb_forall in *. intros r Hin.
  apply H. apply (Permutation_in r (Permutation_sym Hp) Hin).
Qed.

Lemma flagged_permutation plan plan' t :
  Permutation plan plan' -> flagged plan t = flagged plan' t.
Proof.
  intros Hp.
  destruct (flagged plan' t) eqn:E.
  - apply flagged_iff in E as (r & Hin & H). apply flagged_iff.
    exists r. split; [|exact H].
    apply (Permutation_in r (Permutation_sym Hp) Hin).
  - destruct (flagged plan t) eqn:E'; [|reflexivity].
    apply flagged_iff in E' as (r & Hin & H).
    assert (flagged plan' t = true); [|congruence].
    apply flagged_iff. exists r. split; [|exact H].
    apply (Permutation_in r Hp Hin).
Qed.

(** X7: the rows are analyzed independently of their order: a plan with the
    same rows in another order is analyzed without error too and gives
    every table the same entry. *)
Theorem row_order_irrelevant plan plan' query d :
  Permutation plan plan' ->
  analyze_plan_and_suggest plan query = Ok d ->
  exists d',
    analyze_plan_and_suggest plan' query = Ok d'
    /\ forall t, dict_get t d' = dict_get t d.
Proof.
  intros Hp H. rewrite analyze_direct in *.
  pose proof (analyze_rows_all_ok _ _ _ _ H) as Hok.
  destruct (analyze_rows_total (extract_direct query) plan' []
              (row_ok_permutation _ _ Hp Hok)) as [d' Hd'].
  exists d'. split; [exact Hd'|].
  intros t.
  rewrite (analyze_rows_get _ t _ _ _ H), (analyze_rows_get _ t _ _ _ Hd').
  rewrite (flagged_permutation _ _ t Hp). reflexivity.
Qed.

Lemma row_order_irrelevant_witness :
  exists d',
    analyze_plan_and_suggest
      [plan_row (PStr (lit "customers")) (PStr (lit "ALL")) PNone PNone;
       plan_row (PStr (lit "orders")) (PStr (lit "ALL")) PNone PNone]
      orders_query = Ok d'
    /\ forall t,
         dict_get t d'
         = dict_get t
             [(PStr (lit "orders"),
               lit "Consider adding an index on table 'orders' for columns: customer_id.");
              (PStr (lit "customers"),
               lit "Consider adding an index on table 'customers' for columns: customer_id.")].
Proof.
  apply (row_order_irrelevant
           [plan_row (PStr (lit "orders")) (PStr (lit "ALL")) PNone PNone;
            plan_row (PStr (lit "customers")) (PStr (lit "ALL")) PNone PNone]).
  - apply perm_swap.
  - vm_compute. reflexivity.
Defined.

Lemma analyze_row_bad cols d r :
  row_ok r = false -> analyze_row cols d r = Raise (row_error r).
Proof.
  unfold row_ok, row_error, analyze_row.
  destruct r as [|f0 [|f1 [|f2 [|f3 r]]]]; try reflexivity.
  destruct r as [|f4 [|f5 [|f6 [|f7 [|f8 [|f9 [|]]]]]]]; try reflexivity.
  destruct f3; try reflexivity. discriminate.
Qed.

(** X8: a row that does not unpack into ten fields, or whose access type is
    no string, makes the whole call raise, ValueError in the first case
    and AttributeError in the second: the suggestions of the rows before
    it are lost with it. *)
Theorem malformed_row_aborts pre bad post query :
  forallb row_ok pre = true ->
  row_ok bad = false ->
  analyze_plan_and_suggest (pre ++ bad :: post) query
  = Raise (if length bad =? 10 then AttributeError else ValueError).
Proof.
  intros Hpre Hbad. rewrite analyze_direct, analyze_rows_app.
  destruct (analyze_rows_total (extract_direct query) pre [] Hpre) as [d1 ->].
  cbn [bind analyze_rows]. rewrite analyze_row_bad by exact Hbad.
  reflexivity.
Qed.

Lemma malformed_row_aborts_witness :
  analyze_plan_and_suggest
    ([plan_row (PStr (lit "orders")) (PStr (lit "ALL")) PNone PNone]
       ++ [PInt 2; PStr (lit "SIMPLE")] :: [])
    orders_query
  = Raise ValueError.
Proof.
  apply (malformed_row_aborts
           [plan_row (PStr (lit "orders")) (PStr (lit "ALL")) PNone PNone]
           [PInt 2; PStr (lit "SIMPLE")] [] orders_query);
    reflexivity.
Defined.

(** X9: for a query in which WHERE is no whole word, every entry of the
    mapping is the review text of its table. *)
Theorem no_where_review_only plan query d t v :
  no_word is_where false query = true ->
  analyze_plan_and_suggest plan query = Ok d ->
  dict_get t d = Some v ->
  v = lit "Review the WHERE clause for table '" ++ py_str t
        ++ lit "' and consider adding appropriate indexes.".
Proof.
  intros Hq H Hg. rewrite analyze_direct in H.
  unfold extract_direct in H. rewrite find_where_none in H by exact Hq.
  rewrite (analyze_rows_get [] t _ _ _ H) in Hg. cbn [dict_get] in Hg.
  destruct (flagged plan t); [|discriminate].
  injection Hg as <-. reflexivity.
Qed.

Lemma no_where_review_only_witness :
  lit "Review the WHERE clause for table 'orders' and consider adding appropriate indexes."
  = lit "Review the WHERE clause for table '" ++ py_str (PStr (lit "orders"))
      ++ lit "' and consider adding appropriate indexes.".
Proof.
  apply (no_where_review_only
           [plan_row (PStr (lit "orders")) (PStr (lit "ALL")) PNone PNone]
           (lit "SELECT * FROM orders")
           [(PStr (lit "orders"),
             lit "Review the WHERE clause for table 'orders' and consider adding appropriate indexes.")]
           (PStr (lit "orders"))); reflexivity.
Defined.

(** ** The extractor: further behaviour *)

Lemma find_where_prev p1 p2 s :
  word_before p1 = word_before p2 -> find_where p1 s = find_where p2 s.
Proof.
  intros H. rewrite (find_where_eq p1), (find_where_eq p2).
  replace (where_here p1 s) with (where_here p2 s); [reflexivity|].
  unfold where_here, at_boundary.
  destruct s as [|c1 [|c2 [|c3 [|c4 [|c5 t]]]]]; try reflexivity.
  rewrite H. reflexivity.
Qed.

(** X10: text before the clause plays no part: a prefix in which WHERE is no
    whole word and which does not end inside a word can be taken away
    without changing the result. *)
Theorem prefix_without_where_dropped pre s :
  no_word is_where false pre = true ->
  ends_nonword pre = true ->
  extract_columns_from_where (pre ++ s) = extract_columns_from_where s.
Proof.
  intros Hn He. rewrite !extract_is_direct. unfold extract_direct.
  rewrite find_where_skip; [| exact Hn | right; exact He].
  rewrite (find_where_prev (after None pre) None s); [reflexivity|].
  unfold ends_nonword, last_char in He.
  destruct (word_before (after None pre)); [discriminate | reflexivity].
Qed.

Lemma prefix_without_where_dropped_witness :
  extract_columns_from_where
    (lit "SELECT somewhere, x FROM t " ++ lit "WHERE a = 1")
  = extract_columns_from_where (lit "WHERE a = 1").
Proof.
  apply (prefix_without_where_dropped (lit "SELECT somewhere, x FROM t ")
           (lit "WHERE a = 1")); reflexivity.
Defined.

Lemma lstrip_head_not_space s c rest :
  lstrip s = c :: rest -> is_space c = false.
Proof.
  induction s as [|d s IH]; simpl; [discriminate|].
  destruct (is_space d) eqn:Hd; auto.
  intros H. injection H as <- _. exact Hd.
Qed.

Lemma add_column_none columns part :
  scan_col (strip part) = None -> add_column columns part = columns.
Proof.
  intros H. rewrite add_column_direct. unfold part_column. rewrite H.
  apply app_nil_r.
Qed.

(** X11: a fragment that does not begin, after its white space, with a letter
    or an underscore adds no column: a parenthesis, a quote or a digit in
    front of the column hides it. *)
Theorem fragment_without_identifier_skipped columns part c rest :
  lstrip part = c :: rest ->
  ident_start c = false ->
  add_column columns part = columns.
Proof.
  intros Hl Hc. apply add_column_none. unfold strip. rewrite Hl.
  pose proof (lstrip_head_not_space _ _ _ Hl) as Hs.
  change (c :: rest) with ([] ++ c :: rest).
  rewrite (rstrip_keep [] c rest Hs). cbn [app].
  unfold scan_col. cbn [drop_while]. rewrite Hs, Hc. reflexivity.
Qed.

Lemma fragment_without_identifier_skipped_witness :
  add_column [PStr (lit "a")] (lit " (b = 2) ") = [PStr (lit "a")].
Proof.
  apply (fragment_without_identifier_skipped [PStr (lit "a")]
           (lit " (b = 2) ") "("%char (lit "b = 2) ")); reflexivity.
Defined.

(** X12: a fragment whose identifier is followed, after optional white space,
    by anything but =, > or < adds no column: a qualified name such as
    t.col, the operator !=, and LIKE, IN and BETWEEN are all passed over. *)
Theorem fragment_without_operator_skipped columns lead c cs gap x tl :
  forallb is_space lead = true ->
  ident_start c = true ->
  forallb ident_char cs = true ->
  forallb is_space gap = true ->
  is_op_char x = false ->
  is_space x = false ->
  (gap = [] -> ident_char x = false) ->
  add_column columns (lead ++ (c :: cs) ++ gap ++ x :: tl) = columns.
Proof.
  intros Hl Hc Hcs Hg Hx Hxs Hxi. apply add_column_none. unfold strip.
  replace (lead ++ (c :: cs) ++ gap ++ x :: tl)
    with (lead ++ c :: (cs ++ gap ++ x :: tl)) by reflexivity.
  rewrite lstrip_app by (apply ident_start_not_space, Hc).
  rewrite lstrip_all by exact Hl. cbn [app].
  replace (c :: cs ++ gap ++ x :: tl) with ((c :: cs ++ gap) ++ x :: tl)
    by (cbn [app]; rewrite <- app_assoc; reflexivity).
  rewrite rstrip_keep by exact Hxs.
  cbn [app]. rewrite <- app_assoc.
  unfold scan_col. cbn [drop_while].
  rewrite (ident_start_not_space _ Hc), Hc.
  assert (Hd : drop_while ident_char (gap ++ x :: rstrip tl)
               = gap ++ x :: rstrip tl).
  { destruct gap as [|g gap]; cbn [app drop_while].
    - rewrite (Hxi eq_refl). reflexivity.
    - simpl in Hg. apply andb_true_iff in Hg as [Hg' _].
      rewrite (space_not_ident_char _ Hg'). reflexivity. }
  rewrite drop_while_all, Hd by exact Hcs.
  rewrite drop_while_all by exact Hg. cbn [drop_while].
  rewrite Hxs, Hx. reflexivity.
Qed.

Lemma fragment_without_operator_skipped_witness :
  add_column [] (lit " " ++ lit "t" ++ [] ++ "."%char :: lit "col = 1") = [].
Proof.
  apply (fragment_without_operator_skipped [] (lit " ") "t"%char [] []
           "."%char (lit "col = 1")); try reflexivity.
Defined.

(** ** Capitals *)

Lemma upper_word c : is_word (ascii_upper c) = is_word c.
Proof. each_char c. Qed.

Lemma upper_space c : is_space (ascii_upper c) = is_space c.
Proof. each_char c. Qed.

Lemma upper_not_newline c : not_newline (ascii_upper c) = not_newline c.
Proof. each_char c. Qed.

Lemma upper_ident_start c : ident_start (ascii_upper c) = ident_start c.
Proof. each_char c. Qed.

Lemma upper_ident_char c : ident_char (ascii_upper c) = ident_char c.
Proof. each_char c. Qed.

Lemma upper_op_char c : is_op_char (ascii_upper c) = is_op_char c.
Proof. each_char c. Qed.

Lemma upper_lower c : lower (ascii_upper c) = lower c.
Proof. each_char c. Qed.

Lemma upper_same_letter c x : same_letter (ascii_upper c) x = same_letter c x.
Proof. unfold same_letter. rewrite upper_lower. reflexivity. Qed.

Lemma take_while_map p f (s : str) :
  (forall c, p (f c) = p c) ->
  take_while p (map f s) = map f (take_while p s).
Proof.
  intros H. induction s as [|c s IH]; simpl; auto.
  rewrite H. destruct (p c); simpl; congruence.
Qed.

Lemma drop_while_map p f (s : str) :
  (forall c, p (f c) = p c) ->
  drop_while p (map f s) = map f (drop_while p s).
Proof.
  intros H. induction s as [|c s IH]; simpl; auto.
  rewrite H. destruct (p c); simpl; congruence.
Qed.

Lemma lstrip_upper s : lstrip (str_ascii_upper s) = str_ascii_upper (lstrip s).
Proof.
  unfold str_ascii_upper. induction s as [|c s IH]; simpl; auto.
  rewrite upper_space. destruct (is_space c); simpl; congruence.
Qed.

Lemma strip_upper s : strip (str_ascii_upper s) = str_ascii_upper (strip s).
Proof.
  unfold strip, rstrip. rewrite lstrip_upper.
  unfold str_ascii_upper at 1. rewrite <- map_rev.
  change (map ascii_upper (rev (lstrip s))) with (str_ascii_upper (rev (lstrip s))).
  rewrite lstrip_upper. unfold str_ascii_upper. rewrite map_rev. reflexivity.
Qed.

Lemma word_before_upper prev :
  word_before (option_map ascii_upper prev) = word_before prev.
Proof. destruct prev; simpl; auto using upper_word. Qed.

Lemma word_after_upper s : word_after (str_ascii_upper s) = word_after s.
Proof. destruct s; simpl; auto using upper_word. Qed.

Lemma at_boundary_upper prev s :
  at_boundary (option_map ascii_upper prev) (str_ascii_upper s) = at_boundary prev s.
Proof.
  unfold at_boundary. rewrite word_before_upper, word_after_upper.
  reflexivity.
Qed.

Ltac upper_here :=
  unfold at_boundary, str_ascii_upper; cbn [map word_after word_before];
  rewrite ?word_before_upper, ?upper_same_letter, ?upper_word;
  repeat match goal with
         | |- context [word_after (map ascii_upper ?t)] =>
             change (map ascii_upper t) with (str_ascii_upper t);
             rewrite (word_after_upper t)
         end;
  reflexivity.

Lemma where_here_upper prev s :
  where_here (option_map ascii_upper prev) (str_ascii_upper s) = where_here prev s.
Proof.
  destruct s as [|c1 [|c2 [|c3 [|c4 [|c5 t]]]]]; try reflexivity.
  unfold where_here. upper_here.
Qed.

Lemma and_here_upper prev s :
  and_here (option_map ascii_upper prev) (str_ascii_upper s) = and_here prev s.
Proof.
  destruct s as [|c1 [|c2 [|c3 t]]]; try reflexivity.
  unfold and_here. upper_here.
Qed.

Lemma or_here_upper prev s :
  or_here (option_map ascii_upper prev) (str_ascii_upper s) = or_here prev s.
Proof.
  destruct s as [|c1 [|c2 t]]; try reflexivity.
  unfold or_here. upper_here.
Qed.

Lemma kw_len_upper prev s :
  kw_len (option_map ascii_upper prev) (str_ascii_upper s) = kw_len prev s.
Proof.
  unfold kw_len. rewrite and_here_upper, or_here_upper. reflexivity.
Qed.

Lemma find_where_upper s : forall prev,
  find_where (option_map ascii_upper prev) (str_ascii_upper s)
  = option_map str_ascii_upper (find_where prev s).
Proof.
  induction s as [|c s IH]; intros prev.
  - reflexivity.
  - rewrite (find_where_eq prev), find_where_eq, where_here_upper.
    destruct (where_here prev (c :: s)).
    + cbn [option_map]. f_equal. unfold str_ascii_upper.
      rewrite skipn_map. apply take_while_map, upper_not_newline.
    + apply (IH (Some c)).
Qed.

Lemma split_kw_upper s : forall prev skip acc,
  split_kw (option_map ascii_upper prev) (str_ascii_upper s) skip (str_ascii_upper acc)
  = map str_ascii_upper (split_kw prev s skip acc).
Proof.
  induction s as [|c s IH]; intros prev skip acc.
  - destruct skip; cbn [split_kw str_ascii_upper map]; unfold str_ascii_upper;
      rewrite map_rev; reflexivity.
  - destruct skip as [|n].
    + change (str_ascii_upper (c :: s)) with (ascii_upper c :: str_ascii_upper s).
      cbn [split_kw].
      change (ascii_upper c :: str_ascii_upper s) with (str_ascii_upper (c :: s)).
      rewrite kw_len_upper.
      destruct (kw_len prev (c :: s)).
      * apply (IH (Some c) 0 (c :: acc)).
      * cbn [map]. f_equal.
        -- unfold str_ascii_upper. rewrite map_rev. reflexivity.
        -- apply (IH (Some c) n []).
    + apply (IH (Some c) n acc).
Qed.

Lemma scan_col_upper s :
  scan_col (str_ascii_upper s) = option_map str_ascii_upper (scan_col s).
Proof.
  unfold scan_col, str_ascii_upper.
  rewrite (drop_while_map is_space ascii_upper s upper_space).
  destruct (drop_while is_space s) as [|c s1]; [reflexivity|].
  cbn [map]. rewrite upper_ident_start.
  destruct (ident_start c); [|reflexivity].
  rewrite (drop_while_map ident_char ascii_upper s1 upper_ident_char).
  rewrite (drop_while_map is_space ascii_upper _ upper_space).
  destruct (drop_while is_space (drop_while ident_char s1)) as [|o s4];
    [reflexivity|].
  cbn [map]. rewrite upper_op_char.
  destruct (is_op_char o); [|reflexivity].
  cbn [option_map map]. f_equal. f_equal.
  apply take_while_map, upper_ident_char.
Qed.

Lemma columns_of_upper parts :
  columns_of (map str_ascii_upper parts) = map str_ascii_upper (columns_of parts).
Proof.
  unfold columns_of. induction parts as [|p parts IH]; [reflexivity|].
  cbn [map flat_map]. rewrite map_app, IH. f_equal.
  unfold part_column. rewrite strip_upper, scan_col_upper.
  destruct (scan_col (strip p)); reflexivity.
Qed.

(** X13: the keywords WHERE, AND and OR are read in any case and the
    columns are returned as written: the query with its letters a..z put
    into capitals yields the same columns with their letters a..z put into
    capitals, in the same number and order. *)
Theorem upper_case_query query :
  exists cols,
    extract_columns_from_where query = Ok (map PStr cols)
    /\ extract_columns_from_where (str_ascii_upper query)
       = Ok (map PStr (map str_ascii_upper cols)).
Proof.
  exists (extract_direct query). split; [apply extract_is_direct|].
  rewrite extract_is_direct. f_equal. f_equal.
  unfold extract_direct.
  pose proof (find_where_upper query None) as Hf.
  change (option_map ascii_upper None) with (@None ascii) in Hf. rewrite Hf.
  destruct (find_where None query) as [conditions|]; [|reflexivity].
  cbn [option_map].
  rewrite <- columns_of_upper. f_equal.
  apply (split_kw_upper conditions None 0 []).
Qed.

(** ** The database helpers *)

Ltac run_io :=
  unfold calls, ends, sql_analysis_demo, get_execution_plan, run_query,
    io_then, io_call, io_ret, io_raise, lift_result, returns;
  cbn.

Ltac step_io :=
  match goal with
  | |- context [match ?x with _ => _ end] => is_var x; destruct x; cbn
  | |- context [if ?x then _ else _] => is_var x; destruct x; cbn
  end.


Ltac each_query w query :=
  destruct w as [c t0 x f cm t1 cl];
  unfold calls, ends, run_query, finish_ok;
  destruct (is_select query) eqn:Hsel; run_io; repeat step_io.

(** X15: run_query fetches the rows of a statement that starts with SELECT and
    commits after any other statement, never both: the commit is made
    exactly when the statement was executed and is no SELECT. *)
Theorem run_query_commit_iff w query :
  (In CCommit (calls (run_query w query))
   <-> returns (qw_cursor w) = true /\ returns (qw_execute w) = true
       /\ is_select query = false)
  /\ (In CFetchAll (calls (run_query w query))
      <-> returns (qw_cursor w) = true /\ returns (qw_execute w) = true
          /\ is_select query = true).
Proof.
  each_query w query; split; split; intros H;
    try (intuition discriminate); auto 10.
Qed.

(** X16: when its calls go through, run_query returns the second reading of
    the clock minus the first; the readings enclose the execution and the
    fetch or commit, and leave out the opening and closing of the
    cursor. *)
Theorem run_query_elapsed w query :
  returns (qw_cursor w) = true ->
  returns (qw_execute w) = true ->
  finish_ok w query = true ->
  returns (qw_close w) = true ->
  ends (run_query w query)
  = Returns (PrimFloat.sub (qw_end w) (qw_start w))
  /\ calls (run_query w query)
     = [CCursor; CTime; CExecute query;
        if is_select query then CFetchAll else CCommit; CTime; CClose].
Proof.
  each_query w query; intros; try discriminate; split; reflexivity.
Qed.

Lemma run_query_elapsed_witness :
  ends (run_query
          {| qw_cursor := Returns tt; qw_start := 10%float;
             qw_execute := Returns tt; qw_fetchall := Returns [];
             qw_commit := Returns tt; qw_end := 12%float;
             qw_close := Returns tt |}
          (lit "UPDATE t SET a = 1"))
  = Returns (PrimFloat.sub 12%float 10%float)
  /\ calls (run_query
              {| qw_cursor := Returns tt; qw_start := 10%float;
                 qw_execute := Returns tt; qw_fetchall := Returns [];
                 qw_commit := Returns tt; qw_end := 12%float;
                 qw_close := Returns tt |}
              (lit "UPDATE t SET a = 1"))
     = [CCursor; CTime; CExecute (lit "UPDATE t SET a = 1");
        if is_select (lit "UPDATE t SET a = 1") then CFetchAll else CCommit;
        CTime; CClose].
Proof.
  apply (run_query_elapsed
           {| qw_cursor := Returns tt; qw_start := 10%float;
              qw_execute := Returns tt; qw_fetchall := Returns [];
              qw_commit := Returns tt; qw_end := 12%float;
              qw_close := Returns tt |}
           (lit "UPDATE t SET a = 1")); reflexivity.
Defined.

(** X17: run_query has no finally clause either: a statement that raises, or
    a fetch or commit that raises, leaves the cursor open. *)
Theorem run_query_cursor_closed_iff w query :
  In CClose (calls (run_query w query))
  <-> returns (qw_cursor w) = true
      /\ returns (qw_execute w) = true
      /\ finish_ok w query = true.
Proof.
  each_query w query; split; intros H;
    try (intuition discriminate); auto 10.
Qed.

Lemma upper_of_capital c : upper (ascii_upper c) = upper c.
Proof. each_char c. Qed.

Lemma lower_space c : is_space (lower c) = is_space c.
Proof. each_char c. Qed.

Lemma upper_of_lower c : upper (lower c) = upper c.
Proof. each_char c. Qed.

Lemma lstrip_map f s :
  (forall c, is_space (f c) = is_space c) ->
  lstrip (map f s) = map f (lstrip s).
Proof.
  intros H. induction s as [|c s IH]; simpl; auto.
  rewrite H. destruct (is_space c); simpl; congruence.
Qed.

Lemma strip_map f s :
  (forall c, is_space (f c) = is_space c) ->
  strip (map f s) = map f (strip s).
Proof.
  intros H. unfold strip, rstrip.
  rewrite (lstrip_map f s H), <- map_rev, (lstrip_map f _ H), map_rev.
  reflexivity.
Qed.

Lemma lstrip_lead lead s :
  forallb is_space lead = true -> lstrip (lead ++ s) = lstrip s.
Proof.
  induction lead as [|c lead IH]; simpl; auto.
  intros H. apply andb_true_iff in H as [Hc Hl]. rewrite Hc. auto.
Qed.

Lemma str_upper_map f s :
  (forall c, upper (f c) = upper c) -> str_upper (map f s) = str_upper s.
Proof.
  intros H. unfold str_upper. induction s as [|c s IH]; simpl; auto.
  rewrite H, IH. reflexivity.
Qed.

(** X18: the test for SELECT looks past white space in front of the statement
    and is blind to case: the statement with its letters a..z in capitals,
    and the statement in lower case, pass or fail it as the statement
    does. *)
Theorem select_test_insensitive lead query :
  forallb is_space lead = true ->
  is_select (lead ++ query) = is_select query
  /\ is_select (str_ascii_upper query) = is_select query
  /\ is_select (str_lower query) = is_select query.
Proof.
  intros Hl. unfold is_select. repeat split.
  - unfold strip. rewrite lstrip_lead by exact Hl. reflexivity.
  - unfold str_ascii_upper.
    rewrite (strip_map ascii_upper query upper_space).
    rewrite (str_upper_map ascii_upper _ upper_of_capital). reflexivity.
  - unfold str_lower. rewrite (strip_map lower query lower_space).
    rewrite (str_upper_map lower _ upper_of_lower). reflexivity.
Qed.

Lemma select_test_insensitive_witness :
  is_select (lit "  " ++ lit "select 1") = is_select (lit "select 1")
  /\ is_select (str_ascii_upper (lit "select 1")) = is_select (lit "select 1")
  /\ is_select (str_lower (lit "select 1")) = is_select (lit "select 1").
Proof.
  apply (select_test_insensitive (lit "  ") (lit "select 1")). reflexivity.
Defined.

(** ** The demo *)

Lemma demo_is_select : is_select demo_query = true.
Proof. vm_compute. reflexivity. Qed.

Lemma improvement_ok a b : exists n, improvement a b = Ok n.
Proof.
  unfold improvement, float_truthy, float_truediv.
  destruct (PrimFloat.eqb a 0%float); cbn; eauto.
Qed.

Lemma analyze_not_ok plan query :
  forallb row_ok plan = false ->
  exists e, analyze_plan_and_suggest plan query = Raise e.
Proof.
  intros H. rewrite analyze_direct.
  destruct (analyze_rows (map PStr (extract_direct query)) [] plan)
    as [d|e] eqn:E; [|eauto].
  rewrite (analyze_rows_all_ok _ _ _ _ E) in H. discriminate.
Qed.

Ltac demo_unfold :=
  cbv beta iota zeta
    delta [calls ends sql_analysis_demo get_execution_plan run_query io_then
           io_call io_ret io_raise lift_result returns fst snd app].

Ltac step_demo :=
  match goal with
  | |- context [is_select demo_query] => rewrite demo_is_select
  | |- context [match ?x with _ => _ end] => is_var x; destruct x
  | |- context [analyze_plan_and_suggest ?p ?q] =>
      destruct (analyze_plan_and_suggest p q)
  | |- context [improvement ?a ?b] => destruct (improvement a b)
  end;
  demo_unfold.

Ltac each_demo w1 w2 w3 w4 :=
  destruct w1 as [c1 x1 f1 cl1]; destruct w2 as [c2 s2 x2 f2 cm2 e2 cl2];
  destruct w3 as [c3 x3 f3 cl3]; destruct w4 as [c4 s4 x4 f4 cm4 e4 cl4];
  demo_unfold; cbn [pw_cursor pw_execute pw_fetchall pw_close qw_cursor
                    qw_start qw_execute qw_fetchall qw_commit qw_end
                    qw_close];
  repeat step_demo.

(** X19: the demo only reads: whatever the database answers, it executes
    nothing but its query and the EXPLAIN of it, and it never commits. *)
Theorem demo_read_only w1 w2 w3 w4 :
  ~ In CCommit (calls (sql_analysis_demo w1 w2 w3 w4))
  /\ forall q,
       In (CExecute q) (calls (sql_analysis_demo w1 w2 w3 w4)) ->
       q = demo_query \/ q = lit "EXPLAIN " ++ demo_query.
Proof.
  each_demo w1 w2 w3 w4;
    (split;
     [ cbn; intuition discriminate
     | intros q H; cbn in H;
       repeat match goal with
              | H : _ \/ _ |- _ => destruct H as [H | H]
              | H : False |- _ => contradiction
              | H : CExecute _ = CExecute _ |- _ => injection H as <-
              | H : _ = CExecute _ |- _ => discriminate H
              end; auto ]).
Qed.

(** X20: a plan with a row that the analyzer cannot handle stops the demo: it
    raises after the first EXPLAIN, before any query is run or timed. *)
Theorem demo_stops_at_malformed_plan w1 w2 w3 w4 plan :
  returns (pw_cursor w1) = true ->
  returns (pw_execute w1) = true ->
  pw_fetchall w1 = Returns plan ->
  returns (pw_close w1) = true ->
  forallb row_ok plan = false ->
  ends (sql_analysis_demo w1 w2 w3 w4) = Raises OtherError
  /\ calls (sql_analysis_demo w1 w2 w3 w4)
     = [CCursor; CExecute (lit "EXPLAIN " ++ demo_query); CFetchAll; CClose].
Proof.
  destruct w1 as [c1 x1 f1 cl1].
  cbn [pw_cursor pw_execute pw_fetchall pw_close].
  intros Hc Hx -> Hcl Hbad.
  destruct (analyze_not_ok plan demo_query Hbad) as [e He].
  destruct c1 as [[]|]; [|discriminate].
  destruct x1 as [[]|]; [|discriminate].
  destruct cl1 as [[]|]; [|discriminate].
  demo_unfold.
  cbn [pw_cursor pw_execute pw_fetchall pw_close].
  rewrite He. split; reflexivity.
Qed.

Lemma demo_stops_at_malformed_plan_witness :
  ends (sql_analysis_demo
          {| pw_cursor := Returns tt; pw_execute := Returns tt;
             pw_fetchall := Returns [[PInt 1; PStr (lit "SIMPLE")]];
             pw_close := Returns tt |}
          {| qw_cursor := Returns tt; qw_start := 0%float;
             qw_execute := Returns tt; qw_fetchall := Returns [];
             qw_commit := Returns tt; qw_end := 1%float;
             qw_close := Returns tt |}
          {| pw_cursor := Returns tt; pw_execute := Returns tt;
             pw_fetchall := Returns []; pw_close := Returns tt |}
          {| qw_cursor := Returns tt; qw_start := 1%float;
             qw_execute := Returns tt; qw_fetchall := Returns [];
             qw_commit := Returns tt; qw_end := 2%float;
             qw_close := Returns tt |})
  = Raises OtherError
  /\ calls (sql_analysis_demo
              {| pw_cursor := Returns tt; pw_execute := Returns tt;
                 pw_fetchall := Returns [[PInt 1; PStr (lit "SIMPLE")]];
                 pw_close := Returns tt |}
              {| qw_cursor := Returns tt; qw_start := 0%float;
                 qw_execute := Returns tt; qw_fetchall := Returns [];
                 qw_commit := Returns tt; qw_end := 1%float;
                 qw_close := Returns tt |}
              {| pw_cursor := Returns tt; pw_execute := Returns tt;
                 pw_fetchall := Returns []; pw_close := Returns tt |}
              {| qw_cursor := Returns tt; qw_start := 1%float;
                 qw_execute := Returns tt; qw_fetchall := Returns [];
                 qw_commit := Returns tt; qw_end := 2%float;
                 qw_close := Returns tt |})
     = [CCursor; CExecute (lit "EXPLAIN " ++ demo_query); CFetchAll; CClose].
Proof.
  apply (demo_stops_at_malformed_plan
           {| pw_cursor := Returns tt; pw_execute := Returns tt;
              pw_fetchall := Returns [[PInt 1; PStr (lit "SIMPLE")]];
              pw_close := Returns tt |}
           {| qw_cursor := Returns tt; qw_start := 0%float;
              qw_execute := Returns tt; qw_fetchall := Returns [];
              qw_commit := Returns tt; qw_end := 1%float;
              qw_close := Returns tt |}
           {| pw_cursor := Returns tt; pw_execute := Returns tt;
              pw_fetchall := Returns []; pw_close := Returns tt |}
           {| qw_cursor := Returns tt; qw_start := 1%float;
              qw_execute := Returns tt; qw_fetchall := Returns [];
              qw_commit := Returns tt; qw_end := 2%float;
              qw_close := Returns tt |}
           [[PInt 1; PStr (lit "SIMPLE")]]); reflexivity.
Defined.
